(** * A shallow embedding of the Streamlit to-do application (app.py)

    The persistent table [todoitem], the four database operations, the
    Gemini translation call, the session translation cache and the button
    handlers of the page are embedded as executable functions.  The SQLite
    table is a list of rows in rowid order; every operation takes the table
    and gives back the table after its commit. *)

From stdpp Require Import gmap strings list fin_maps.
From Stdlib Require Import ZArith Lia Ascii String Sorted DecimalString DecimalZ.

Local Open Scope Z_scope.

(** ** Data model *)

(** [datetime.date]: a calendar date. *)
Record date := mk_date { year : nat; month : nat; day : nat }.

(** A row of the table [todoitem], as a loaded [TodoItem] instance carries it.
    [id] is the primary key (an alias of the SQLite rowid); [title] and
    [completed] are NOT NULL columns, the three others are nullable. *)
Record TodoItem := mk_TodoItem {
  id : Z;
  title : string;
  description : option string;
  completed : bool;
  priority : option string;
  due_date : option date
}.

(** [TodoItemCreate]: no [id] and no [completed] field. *)
Record TodoItemCreate := mk_TodoItemCreate {
  create_title : string;
  create_description : option string;
  create_priority : option string;
  create_due_date : option date
}.

(** A field of a pydantic model declared [Optional[T] = None]: either the
    constructor did not receive it ([Unset], outside [model_fields_set]) or
    it did, with [None] or with a value. *)
Inductive field (A : Type) : Type :=
| Unset
| Given (v : option A).
Arguments Unset {A}.
Arguments Given {A} v.

Record TodoItemUpdate := mk_TodoItemUpdate {
  update_title : field string;
  update_description : field string;
  update_completed : field bool;
  update_priority : field string;
  update_due_date : field date
}.

(** Exceptions the operations raise, with their message. *)
Inductive exn :=
| ValidationError (msg : string)
| IntegrityError (msg : string)
| ApiError (msg : string).

Definition str_exn (e : exn) : string :=
  match e with
  | ValidationError m | IntegrityError m | ApiError m => m
  end.

(** A Python call either returns or raises. *)
Inductive outcome (A : Type) : Type :=
| Returns (a : A)
| Raises (e : exn).
Arguments Returns {A} a.
Arguments Raises {A} e.

(** ** The table and the SQL statements the session emits *)

Definition table := list TodoItem.

(** [session.get(TodoItem, todo_id)]: SELECT by primary key. *)
Definition session_get (db : table) (todo_id : Z) : option TodoItem :=
  List.find (fun row => id row =? todo_id) db.

(** The rowid SQLite gives to an INSERT that names none, on a table declared
    [INTEGER PRIMARY KEY] without AUTOINCREMENT (the table arguments of
    [TodoItem] only set [extend_existing]): 1 on an empty table, otherwise
    one more than the largest rowid in the table. *)
Definition next_rowid (db : table) : Z :=
  match List.map id db with
  | [] => 1
  | x :: xs => 1 + fold_left Z.max xs x
  end.

(** INSERT: the new row goes last in rowid order. *)
Definition sql_insert (db : table) (row : TodoItem) : table := db ++ [row].

(** UPDATE todoitem SET ... WHERE id = ?. *)
Definition sql_update (db : table) (row : TodoItem) : table :=
  List.map (fun r => if id r =? id row then row else r) db.

(** DELETE FROM todoitem WHERE id = ?. *)
Definition sql_delete (db : table) (todo_id : Z) : table :=
  List.filter (fun r => negb (id r =? todo_id)) db.

(** [session.refresh(obj)]: the row is read back by its primary key. *)
Definition refresh (db : table) (obj : TodoItem) : outcome TodoItem :=
  match session_get db (id obj) with
  | Some row => Returns row
  | None => Raises (IntegrityError "Could not refresh instance")
  end.

Definition option_outcome {A} (r : outcome A) : outcome (option A) :=
  match r with
  | Returns a => Returns (Some a)
  | Raises e => Raises e
  end.

(** ** Database operations *)

Definition get_all_todos_db (db : table) : list TodoItem := db.

(** [len(s)] of a Python [str].  A string here is the UTF-8 encoding of the
    Python one, so its characters are the bytes that are not continuation
    bytes (those from 128 to 191). *)
Definition is_continuation (a : ascii) : bool :=
  ((128 <=? nat_of_ascii a) && (nat_of_ascii a <? 192))%nat.

Fixpoint char_length (s : string) : nat :=
  match s with
  | EmptyString => 0%nat
  | String a rest =>
      if is_continuation a then char_length rest else S (char_length rest)
  end.

(** [TodoItem.model_validate(todo_create)]: the only constraint the table
    model declares is [max_length=50] on [priority], counted in characters. *)
Definition priority_ok (p : option string) : bool :=
  match p with
  | None => true
  | Some s => (char_length s <=? 50)%nat
  end.

Definition create_todo_db (db : table) (todo_create : TodoItemCreate)
  : table * outcome TodoItem :=
  if priority_ok (create_priority todo_create) then
    let db_todo :=
      {| id := next_rowid db;
         title := create_title todo_create;
         description := create_description todo_create;
         completed := false;
         priority := create_priority todo_create;
         due_date := create_due_date todo_create |} in
    let db' := sql_insert db db_todo in
    (db', refresh db' db_todo)
  else
    (db, Raises (ValidationError "String should have at most 50 characters")).

(** One key of the dict [model_dump(exclude_unset=True)] returns. *)
Inductive assignment :=
| SetTitle (v : option string)
| SetDescription (v : option string)
| SetCompleted (v : option bool)
| SetPriority (v : option string)
| SetDueDate (v : option date).

Definition dump {A} (key : option A -> assignment) (f : field A)
  : list assignment :=
  match f with
  | Unset => []
  | Given v => [key v]
  end.

Definition model_dump_exclude_unset (u : TodoItemUpdate) : list assignment :=
  dump SetTitle (update_title u) ++
  dump SetDescription (update_description u) ++
  dump SetCompleted (update_completed u) ++
  dump SetPriority (update_priority u) ++
  dump SetDueDate (update_due_date u).

(** The attributes of a [TodoItem] instance between [sqlmodel_update] and the
    commit: [setattr] does not validate, so [title] and [completed] can hold
    [None] there. *)
Record instance := mk_instance {
  inst_id : Z;
  inst_title : option string;
  inst_description : option string;
  inst_completed : option bool;
  inst_priority : option string;
  inst_due_date : option date
}.

Definition instance_of_row (row : TodoItem) : instance :=
  {| inst_id := id row;
     inst_title := Some (title row);
     inst_description := description row;
     inst_completed := Some (completed row);
     inst_priority := priority row;
     inst_due_date := due_date row |}.

Definition setattr (o : instance) (a : assignment) : instance :=
  match a with
  | SetTitle v =>
      mk_instance (inst_id o) v (inst_description o) (inst_completed o)
        (inst_priority o) (inst_due_date o)
  | SetDescription v =>
      mk_instance (inst_id o) (inst_title o) v (inst_completed o)
        (inst_priority o) (inst_due_date o)
  | SetCompleted v =>
      mk_instance (inst_id o) (inst_title o) (inst_description o) v
        (inst_priority o) (inst_due_date o)
  | SetPriority v =>
      mk_instance (inst_id o) (inst_title o) (inst_description o)
        (inst_completed o) v (inst_due_date o)
  | SetDueDate v =>
      mk_instance (inst_id o) (inst_title o) (inst_description o)
        (inst_completed o) (inst_priority o) v
  end.

(** [todo.sqlmodel_update(update_data)]: one [setattr] per key. *)
Definition sqlmodel_update (o : instance) (update_data : list assignment)
  : instance :=
  fold_left setattr update_data o.

(** The flush of the commit: the UPDATE is refused when a NOT NULL column
    would receive NULL. *)
Definition flush (o : instance) : outcome TodoItem :=
  match inst_title o, inst_completed o with
  | Some t, Some c =>
      Returns {| id := inst_id o; title := t;
                 description := inst_description o; completed := c;
                 priority := inst_priority o; due_date := inst_due_date o |}
  | None, _ =>
      Raises (IntegrityError "NOT NULL constraint failed: todoitem.title")
  | Some _, None =>
      Raises (IntegrityError "NOT NULL constraint failed: todoitem.completed")
  end.

Definition update_todo_db (db : table) (todo_id : Z)
  (todo_update : TodoItemUpdate) : table * outcome (option TodoItem) :=
  match session_get db todo_id with
  | None => (db, Returns None)
  | Some todo =>
      let update_data := model_dump_exclude_unset todo_update in
      match flush (sqlmodel_update (instance_of_row todo) update_data) with
      | Returns row =>
          let db' := sql_update db row in
          (db', option_outcome (refresh db' row))
      | Raises e => (db, Raises e)
      end
  end.

Definition delete_todo_db (db : table) (todo_id : Z) : table * bool :=
  match session_get db todo_id with
  | None => (db, false)
  | Some todo => (sql_delete db (id todo), true)
  end.

(** ** Translation *)

(** What the page writes and calls besides the table: Streamlit messages, the
    rerun request, and the request sent to the Gemini API. *)
Inductive ui_event :=
| StError (msg : string)
| StWarning (msg : string)
| StSuccess (msg : string)
| StRerun
| GenerateContent (prompt : string).

(** [gemini_model.generate_content(prompt).text]: the remote service, which
    answers with a text or fails. *)
Definition GenerativeModel := string -> outcome string.

(** Lines 52-62: the module-level configuration of [gemini_model].  [connect]
    stands for [genai.configure] followed by [genai.GenerativeModel]. *)
Definition truthy (s : string) : bool :=
  match s with
  | EmptyString => false
  | String _ _ => true
  end.

Definition configure_gemini (GOOGLE_API_KEY : option string)
  (connect : string -> outcome GenerativeModel)
  : option GenerativeModel * list ui_event :=
  match GOOGLE_API_KEY with
  | Some key =>
      if truthy key then
        match connect key with
        | Returns m => (Some m, [])
        | Raises e =>
            (None, [StError ("Error configuring Google Gemini API: " +:+ str_exn e)])
        end
      else
        (None, [StError "GOOGLE_API_KEY not found in environment variables. Please set it as a Streamlit Secret."])
  | None =>
      (None, [StError "GOOGLE_API_KEY not found in environment variables. Please set it as a Streamlit Secret."])
  end.

(** Line 138: the f-string sent to the model. *)
Definition translation_prompt (text target_language : string) : string :=
  "Translate the following text into " +:+ target_language +:+ ": " +:+ text.

Definition translate_text_gemini (gemini_model : option GenerativeModel)
  (text target_language : string) : option string * list ui_event :=
  match gemini_model with
  | None =>
      (None, [StError "Translation service not available. API key might be missing or invalid."])
  | Some model =>
      let prompt := translation_prompt text target_language in
      match model prompt with
      | Returns translated_content =>
          (Some translated_content, [GenerateContent prompt])
      | Raises e =>
          (None, [GenerateContent prompt;
                  StError ("Gemini translation error: " +:+ str_exn e)])
      end
  end.

(** The requests that reached the API during a run. *)
Definition api_calls (evs : list ui_event) : list string :=
  omap (fun ev => match ev with GenerateContent p => Some p | _ => None end) evs.

(** ** Session state and the page *)

(** [st.session_state.translations]: item id -> language -> translated text. *)
Record world := mk_world {
  db : table;
  translations : gmap Z (gmap string string)
}.

(** The test the page makes before it shows a translation:
    [todo.id in translations and target_language in translations[todo.id]]. *)
Definition cached_translation (tr : gmap Z (gmap string string))
  (todo_id : Z) (language : string) : option string :=
  match tr !! todo_id with
  | Some by_language => by_language !! language
  | None => None
  end.

(** [str(date)]: ISO format, zero padded. *)
Definition digit (n : nat) : ascii := ascii_of_nat (48 + n mod 10).

Definition str_date (d : date) : string :=
  let y := year d in
  let m := month d in
  let dd := day d in
  String (digit (y / 1000)) (String (digit (y / 100)) (String (digit (y / 10))
    (String (digit y) (String "-" (String (digit (m / 10)) (String (digit m)
    (String "-" (String (digit (dd / 10)) (String (digit dd) ""))))))))).

Definition truthy_opt (s : option string) : bool :=
  match s with
  | Some v => truthy v
  | None => false
  end.

(** Lines 225-226: the two list comprehensions over [todos]. *)
Definition incomplete_todos (todos : list TodoItem) : list TodoItem :=
  List.filter (fun todo => negb (completed todo)) todos.

Definition completed_todos (todos : list TodoItem) : list TodoItem :=
  List.filter (fun todo => completed todo) todos.

Section Page.

Variable gemini_model : option GenerativeModel.
Variable target_language : string.

(** Lines 194-215: the body of the add form once it is submitted. *)
Definition add_todo_form (w : world) (add_button : bool)
  (new_title new_description new_priority : string)
  (new_due_date : option date) : world * list ui_event :=
  if add_button then
    let submitted_priority :=
      if String.eqb new_priority "None" then None else Some new_priority in
    if truthy new_title then
      match create_todo_db (db w)
              (mk_TodoItemCreate new_title (Some new_description)
                 submitted_priority new_due_date) with
      | (db', Returns _) =>
          (mk_world db' (translations w),
           [StSuccess "To-Do item added successfully!"; StRerun])
      | (db', Raises e) =>
          (mk_world db' (translations w),
           [StError ("Error adding todo: " +:+ str_exn e)])
      end
    else
      (w, [StWarning "Please enter a title for the To-Do item."])
  else (w, []).

(** Lines 248-250: the "Mark Completed" button. *)
Definition mark_completed (w : world) (todo : TodoItem) : world * list ui_event :=
  match update_todo_db (db w) (id todo)
          (mk_TodoItemUpdate Unset Unset (Given (Some true)) Unset Unset) with
  | (db', Returns _) => (mk_world db' (translations w), [StRerun])
  | (db', Raises _) => (mk_world db' (translations w), [])
  end.

(** Lines 253-259: the text sent for translation. *)
Definition annotate (label : string) (v : option string) (text : string)
  : string :=
  match v with
  | Some s => if truthy s then text +:+ " (" +:+ label +:+ ": " +:+ s +:+ ")" else text
  | None => text
  end.

Definition text_to_translate (todo : TodoItem) : string :=
  annotate "Due Date" (str_date <$> due_date todo)
    (annotate "Priority" (priority todo)
       (annotate "Description" (description todo) (title todo))).

(** Lines 263-265: the write into the cache; the inner dict is created on
    the first translation of the item. *)
Definition cache_put (tr : gmap Z (gmap string string)) (todo_id : Z)
  (language text : string) : gmap Z (gmap string string) :=
  let tr1 :=
    match tr !! todo_id with
    | None => <[todo_id := ∅]> tr
    | Some _ => tr
    end in
  match tr1 !! todo_id with
  | Some by_language => <[todo_id := <[language := text]> by_language]> tr1
  | None => tr1
  end.

(** Lines 252-266: the "Translate" button. *)
Definition translate_button (w : world) (todo : TodoItem)
  : world * list ui_event :=
  let '(translated_text, evs) :=
    translate_text_gemini gemini_model (text_to_translate todo) target_language in
  match translated_text with
  | Some text =>
      if truthy text then
        (mk_world (db w) (cache_put (translations w) (id todo) target_language text),
         evs ++ [StRerun])
      else (w, evs)
  | None => (w, evs)
  end.

(** Lines 270-271: the eviction of an item's cache entry. *)
Definition cache_evict (tr : gmap Z (gmap string string)) (todo_id : Z)
  : gmap Z (gmap string string) :=
  match tr !! todo_id with
  | Some _ => delete todo_id tr
  | None => tr
  end.

(** Lines 268-272 and 297-301: the two "Delete" buttons run the same code. *)
Definition delete_button (w : world) (todo : TodoItem) : world * list ui_event :=
  let '(db', _) := delete_todo_db (db w) (id todo) in
  (mk_world db' (cache_evict (translations w) (id todo)), [StRerun]).

End Page.

(** ** Sequences of store operations *)

Inductive op :=
| Create (todo_create : TodoItemCreate)
| Update (todo_id : Z) (todo_update : TodoItemUpdate)
| Delete (todo_id : Z).

Definition is_delete (o : op) : bool :=
  match o with
  | Delete _ => true
  | _ => false
  end.

(** One operation on the table; a create that returns reports the id of the
    item it returned. *)
Definition step (db : table) (o : op) : table * option Z :=
  match o with
  | Create c =>
      match create_todo_db db c with
      | (db', Returns item) => (db', Some (id item))
      | (db', Raises _) => (db', None)
      end
  | Update i u => (fst (update_todo_db db i u), None)
  | Delete i => (fst (delete_todo_db db i), None)
  end.

(** The table after a sequence of operations, and the ids the creates of the
    sequence returned, in order. *)
Fixpoint run (db : table) (ops : list op) : table * list Z :=
  match ops with
  | [] => (db, [])
  | o :: rest =>
      let '(db1, created) := step db o in
      let '(db2, ids) := run db1 rest in
      (db2, match created with Some i => i :: ids | None => ids end)
  end.




(** The value a field holds after the merge of an update request. *)
Definition merge {A} (old : option A) (f : field A) : option A :=
  match f with
  | Unset => old
  | Given v => v
  end.

(** Sample data: the row a first [create(title="Buy milk")] leaves in an
    empty table. *)
Definition sample_row : TodoItem :=
  mk_TodoItem 1 "Buy milk" None false None None.

(** ** The sidebar and the list of items *)

(** Lines 149-160: the dict [LANGUAGES], in insertion order. *)
Definition LANGUAGES : list (string * string) :=
  [("English", "English"); ("Spanish", "Spanish"); ("French", "French");
   ("German", "German"); ("Hindi", "Hindi"); ("Marathi", "Marathi");
   ("Japanese", "Japanese");
   ("Chinese (Simplified)", "Chinese (Simplified)");
   ("Korean", "Korean"); ("Portuguese", "Portuguese")].

(** [d[key]] on a dict kept as a list of items; [None] is the KeyError. *)
Definition dict_get (d : list (string * string)) (key : string) : option string :=
  snd <$> List.find (fun kv => String.eqb (fst kv) key) d.

(** Lines 161-166: the select box over [list(LANGUAGES.keys())] hands back
    the option at the chosen position (position 0 until the user picks one),
    and the target language is its entry in the dict. *)
Definition selected_language_name (choice : nat) : option string :=
  nth_error (List.map fst LANGUAGES) choice.

Definition target_language_of (choice : nat) : option string :=
  match selected_language_name choice with
  | Some name => dict_get LANGUAGES name
  | None => None
  end.

(** [str(n)] of a Python int. *)
Definition str_int (z : Z) : string := NilEmpty.string_of_int (Z.to_int z).

(** What a run of the page puts on the screen below "Your To-Do List". *)
Inductive element :=
| Subheader (body : string)
| Markdown (body : string) (unsafe_allow_html : bool)
| Button (label key : string)
| Divider
| Info (body : string).

(** The four kinds of per-item buttons and the prefix of their widget key. *)
Inductive button_kind :=
| Complete
| Translate
| DeleteIncomplete
| DeleteCompleted.

Definition key_prefix (k : button_kind) : string :=
  match k with
  | Complete => "complete_"
  | Translate => "translate_"
  | DeleteIncomplete => "delete_incomplete_"
  | DeleteCompleted => "delete_completed_"
  end.

(** [f"complete_{todo.id}"] and its three siblings. *)
Definition widget_key (k : button_kind) (todo_id : Z) : string :=
  key_prefix k +:+ str_int todo_id.

(** [if value: st.markdown(...)]: one line for a field that is set and not
    empty. *)
Definition field_line (html : bool) (line : string -> string)
  (value : option string) : list element :=
  match value with
  | Some v => if truthy v then [Markdown (line v) html] else []
  | None => []
  end.

Section Render.

Variable tr : gmap Z (gmap string string).
Variable selected_name : string.
Variable target_language : string.

(** Lines 232-273: one pending item. *)
Definition pending_item (task_number : Z) (todo : TodoItem) : list element :=
  [Markdown (str_int task_number +:+ ". **" +:+ title todo +:+ "**") false] ++
  field_line false (fun d => "&nbsp;&nbsp;&nbsp;&nbsp;_" +:+ d +:+ "_")
    (description todo) ++
  field_line false (fun p => "&nbsp;&nbsp;&nbsp;&nbsp;**Priority:** " +:+ p)
    (priority todo) ++
  field_line false (fun d => "&nbsp;&nbsp;&nbsp;&nbsp;**Due:** " +:+ d)
    (str_date <$> due_date todo) ++
  match cached_translation tr (id todo) target_language with
  | Some text =>
      [Markdown ("**Translated (" +:+ selected_name +:+ "):** *" +:+ text +:+ "*")
         false]
  | None => []
  end ++
  [Button "Mark Completed" (widget_key Complete (id todo));
   Button ("Translate to " +:+ selected_name) (widget_key Translate (id todo));
   Button "Delete" (widget_key DeleteIncomplete (id todo));
   Divider].

(** Lines 230-274: the loop over the pending items with its counter. *)
Fixpoint pending_loop (task_number : Z) (todos : list TodoItem) : list element :=
  match todos with
  | [] => []
  | todo :: rest =>
      pending_item task_number todo ++ pending_loop (task_number + 1) rest
  end.

(** Lines 280-302: one completed item, struck through. *)
Definition completed_item (completed_task_number : Z) (todo : TodoItem)
  : list element :=
  [Markdown ("<del>**" +:+ str_int completed_task_number +:+ ". " +:+ title todo
             +:+ "**</del>") true] ++
  field_line true (fun d => "<del>&nbsp;&nbsp;&nbsp;&nbsp;_" +:+ d +:+ "_</del>")
    (description todo) ++
  field_line true
    (fun p => "<del>&nbsp;&nbsp;&nbsp;&nbsp;**Priority:** " +:+ p +:+ "</del>")
    (priority todo) ++
  field_line true
    (fun d => "<del>&nbsp;&nbsp;&nbsp;&nbsp;**Due:** " +:+ d +:+ "</del>")
    (str_date <$> due_date todo) ++
  match cached_translation tr (id todo) target_language with
  | Some text =>
      [Markdown ("<del>**Translated (" +:+ selected_name +:+ "):** *" +:+ text
                 +:+ "*</del>") true]
  | None => []
  end ++
  [Button "Delete" (widget_key DeleteCompleted (id todo));
   Divider].

(** Lines 278-303: the loop over the completed items with its counter. *)
Fixpoint completed_loop (completed_task_number : Z) (todos : list TodoItem)
  : list element :=
  match todos with
  | [] => []
  | todo :: rest =>
      completed_item completed_task_number todo ++
      completed_loop (completed_task_number + 1) rest
  end.

(** Lines 223-305: the list of items when no button is pressed. *)
Definition render_todos (todos : list TodoItem) : list element :=
  match todos with
  | [] => [Info "No To-Do items yet! Add one above."]
  | _ :: _ =>
      match incomplete_todos todos with
      | [] => []
      | _ :: _ =>
          Subheader "Pending Tasks" :: pending_loop 1 (incomplete_todos todos)
      end ++
      match completed_todos todos with
      | [] => []
      | _ :: _ =>
          Subheader "Completed Tasks" :: completed_loop 1 (completed_todos todos)
      end
  end.

End Render.

(** The widget keys of the buttons on the screen. *)
Definition button_keys (els : list element) : list string :=
  omap (fun el => match el with Button _ key => Some key | _ => None end) els.

(** The section headers and the notices on the screen, in order. *)
Definition subheaders (els : list element) : list string :=
  omap (fun el => match el with Subheader body => Some body | _ => None end) els.

Definition infos (els : list element) : list string :=
  omap (fun el => match el with Info body => Some body | _ => None end) els.

(** The shape a table has under the primary key with SQLite's rowid
    allocation: rows in strictly ascending id order, ids from 1 upwards. *)
Definition rowid_ordered (db : table) : Prop :=
  Sorted.StronglySorted Z.lt (List.map id db) /\
  forall row, In row db -> 1 <= id row.

(** * Properties *)

(** ** Lookup, insert, update and delete on the table *)

Lemma session_get_Some db i row :
  session_get db i = Some row -> In row db /\ id row = i.
Proof.
  unfold session_get. intros H. apply find_some in H.
  destruct H as [Hin Heq]. split; [exact Hin | lia].
Qed.

Lemma session_get_None db i :
  session_get db i = None <-> ~ In i (List.map id db).
Proof.
  unfold session_get. induction db as [|r db IH]; simpl.
  - tauto.
  - destruct (Z.eqb_spec (id r) i) as [E|E].
    + split; [discriminate | intros H; exfalso; apply H; now left].
    + rewrite IH. tauto.
Qed.

Lemma session_get_is_Some db i :
  In i (List.map id db) -> exists row, session_get db i = Some row.
Proof.
  intros Hin. destruct (session_get db i) as [row|] eqn:E.
  - now exists row.
  - apply session_get_None in E. contradiction.
Qed.

Lemma session_get_sql_update db row old :
  session_get db (id row) = Some old ->
  session_get (sql_update db row) (id row) = Some row.
Proof.
  unfold session_get, sql_update. induction db as [|r db IH]; simpl.
  - discriminate.
  - destruct (Z.eqb_spec (id r) (id row)) as [E|E].
    + intros _. now rewrite Z.eqb_refl.
    + intros H. destruct (Z.eqb_spec (id r) (id row)); [contradiction|].
      now apply IH.
Qed.

Lemma session_get_sql_update_ne db row j :
  j <> id row ->
  session_get (sql_update db row) j = session_get db j.
Proof.
  intros Hne. unfold session_get, sql_update.
  induction db as [|r db IH]; simpl; [reflexivity|].
  destruct (Z.eqb_spec (id r) (id row)) as [E|E].
  - destruct (Z.eqb_spec (id row) j); [congruence|].
    destruct (Z.eqb_spec (id r) j); [congruence|]. exact IH.
  - destruct (Z.eqb_spec (id r) j); [reflexivity | exact IH].
Qed.

Lemma sql_update_ids db row :
  List.map id (sql_update db row) = List.map id db.
Proof.
  unfold sql_update. induction db as [|r db IH]; simpl; [reflexivity|].
  rewrite IH. destruct (Z.eqb_spec (id r) (id row)); congruence.
Qed.

Lemma sql_delete_In db i row :
  In row (sql_delete db i) <-> In row db /\ id row <> i.
Proof.
  unfold sql_delete. rewrite filter_In.
  destruct (Z.eqb_spec (id row) i); simpl; intuition congruence.
Qed.

Lemma sql_delete_ids db i j :
  In j (List.map id (sql_delete db i)) <-> In j (List.map id db) /\ j <> i.
Proof.
  rewrite !in_map_iff. split.
  - intros (row & <- & Hin). apply sql_delete_In in Hin.
    destruct Hin as [Hin Hne]. split; [now exists row | exact Hne].
  - intros [(row & <- & Hin) Hne]. exists row. split; [reflexivity|].
    apply sql_delete_In. now split.
Qed.

Lemma sql_delete_absent db i :
  ~ In i (List.map id db) -> sql_delete db i = db.
Proof.
  unfold sql_delete. induction db as [|r db IH]; simpl; [reflexivity|].
  intros H. destruct (Z.eqb_spec (id r) i) as [E|E]; simpl.
  - exfalso. apply H. now left.
  - f_equal. apply IH. tauto.
Qed.

Lemma fold_left_max_ge xs : forall x y,
  (y = x \/ In y xs) -> y <= fold_left Z.max xs x.
Proof.
  induction xs as [|z xs IH]; simpl; intros x y [H|H].
  - lia.
  - contradiction.
  - subst y. transitivity (Z.max x z); [lia|]. apply IH. now left.
  - destruct H as [H|H].
    + subst y. transitivity (Z.max x z); [lia|]. apply IH. now left.
    + apply IH. now right.
Qed.

Lemma next_rowid_above db row :
  In row db -> id row < next_rowid db.
Proof.
  intros Hin. unfold next_rowid.
  assert (Hm : In (id row) (List.map id db)) by now apply in_map.
  destruct (List.map id db) as [|x xs]; [contradiction|].
  assert (id row <= fold_left Z.max xs x).
  { apply fold_left_max_ge. destruct Hm; [left; congruence | now right]. }
  lia.
Qed.

Lemma next_rowid_fresh db : ~ In (next_rowid db) (List.map id db).
Proof.
  intros H. apply in_map_iff in H. destruct H as (row & E & Hin).
  apply next_rowid_above in Hin. lia.
Qed.

Lemma session_get_insert db row :
  ~ In (id row) (List.map id db) ->
  session_get (sql_insert db row) (id row) = Some row.
Proof.
  intros H. apply session_get_None in H. revert H.
  unfold session_get, sql_insert. induction db as [|r db IH]; simpl.
  - intros _. now rewrite Z.eqb_refl.
  - destruct (Z.eqb_spec (id r) (id row)); [discriminate | exact IH].
Qed.

(** ** The operations in closed form *)

Lemma create_todo_db_valid db c :
  priority_ok (create_priority c) = true ->
  let item := mk_TodoItem (next_rowid db) (create_title c)
                (create_description c) false (create_priority c)
                (create_due_date c) in
  create_todo_db db c = (db ++ [item], Returns item).
Proof.
  intros Hok. simpl. unfold create_todo_db. rewrite Hok. cbv zeta.
  unfold refresh.
  rewrite session_get_insert; [reflexivity | apply next_rowid_fresh].
Qed.

Lemma create_todo_db_invalid db c :
  priority_ok (create_priority c) = false ->
  exists msg, create_todo_db db c = (db, Raises (ValidationError msg)).
Proof.
  intros Hok. unfold create_todo_db. rewrite Hok. eauto.
Qed.

Lemma sqlmodel_update_dump row u :
  sqlmodel_update (instance_of_row row) (model_dump_exclude_unset u) =
  mk_instance (id row)
    (merge (Some (title row)) (update_title u))
    (merge (description row) (update_description u))
    (merge (Some (completed row)) (update_completed u))
    (merge (priority row) (update_priority u))
    (merge (due_date row) (update_due_date u)).
Proof.
  destruct u as [[|t] [|d] [|c] [|p] [|dd]]; reflexivity.
Qed.

Lemma delete_todo_db_present db i row :
  session_get db i = Some row -> delete_todo_db db i = (sql_delete db i, true).
Proof.
  intros H. unfold delete_todo_db. rewrite H.
  apply session_get_Some in H. destruct H as [_ ->]. reflexivity.
Qed.

Lemma delete_todo_db_absent db i :
  session_get db i = None -> delete_todo_db db i = (db, false).
Proof.
  intros H. unfold delete_todo_db. now rewrite H.
Qed.

Lemma delete_todo_db_table db i :
  fst (delete_todo_db db i) = sql_delete db i.
Proof.
  destruct (session_get db i) as [row|] eqn:E.
  - now rewrite (delete_todo_db_present _ _ _ E).
  - rewrite (delete_todo_db_absent _ _ E). cbn [fst]. symmetry.
    apply sql_delete_absent. now apply session_get_None.
Qed.

Lemma next_rowid_pos db :
  (forall row, In row db -> 1 <= id row) -> 1 <= next_rowid db.
Proof.
  intros Hpos. destruct db as [|r db]; [unfold next_rowid; simpl; lia|].
  assert (H := next_rowid_above (r :: db) r (or_introl eq_refl)).
  specialize (Hpos r (or_introl eq_refl)). lia.
Qed.

Lemma update_todo_db_absent db i u :
  session_get db i = None -> update_todo_db db i u = (db, Returns None).
Proof.
  intros H. unfold update_todo_db. now rewrite H.
Qed.

Lemma update_todo_db_present db i u todo :
  session_get db i = Some todo ->
  update_todo_db db i u =
  match merge (Some (title todo)) (update_title u),
        merge (Some (completed todo)) (update_completed u) with
  | Some t, Some c =>
      let row := mk_TodoItem (id todo) t
                   (merge (description todo) (update_description u)) c
                   (merge (priority todo) (update_priority u))
                   (merge (due_date todo) (update_due_date u)) in
      (sql_update db row, Returns (Some row))
  | None, _ =>
      (db, Raises (IntegrityError "NOT NULL constraint failed: todoitem.title"))
  | Some _, None =>
      (db, Raises (IntegrityError "NOT NULL constraint failed: todoitem.completed"))
  end.
Proof.
  intros H. unfold update_todo_db. rewrite H, sqlmodel_update_dump.
  unfold flush. cbn [inst_id inst_title inst_description inst_completed
                     inst_priority inst_due_date].
  destruct (merge (Some (title todo)) (update_title u)) as [t|];
    [|reflexivity].
  destruct (merge (Some (completed todo)) (update_completed u)) as [c|];
    [|reflexivity].
  cbv zeta. unfold refresh.
  set (row := mk_TodoItem (id todo) t _ c _ _).
  destruct (session_get_Some _ _ _ H) as [_ Hid].
  assert (Hrow : session_get db (id row) = Some todo)
    by (unfold row; cbn [id]; now rewrite Hid).
  now rewrite (session_get_sql_update _ _ _ Hrow).
Qed.

(** ** Update *)

(** C1. An update of an existing item leaves every field that the update
    request does not carry at its value before the call, in the stored row
    and in the returned item; the id is never changed.  In particular the
    request that only sets [completed] to true keeps title, description,
    priority and due date. *)
Theorem update_keeps_unset_fields db todo_id u todo :
  session_get db todo_id = Some todo ->
  (exists todo',
      session_get (fst (update_todo_db db todo_id u)) todo_id = Some todo' /\
      id todo' = id todo /\
      (update_title u = Unset -> title todo' = title todo) /\
      (update_description u = Unset -> description todo' = description todo) /\
      (update_completed u = Unset -> completed todo' = completed todo) /\
      (update_priority u = Unset -> priority todo' = priority todo) /\
      (update_due_date u = Unset -> due_date todo' = due_date todo) /\
      (forall item,
          snd (update_todo_db db todo_id u) = Returns (Some item) ->
          item = todo')) /\
  (let done := mk_TodoItem (id todo) (title todo) (description todo) true
                 (priority todo) (due_date todo) in
   update_todo_db db todo_id
     (mk_TodoItemUpdate Unset Unset (Given (Some true)) Unset Unset)
   = (sql_update db done, Returns (Some done)) /\
   session_get (sql_update db done) todo_id = Some done).
Proof.
  intros H. destruct (session_get_Some _ _ _ H) as [_ Hid]. split.
  - rewrite (update_todo_db_present _ _ u _ H).
    destruct u as [ut ud uc up udd]. cbn [update_title update_description
      update_completed update_priority update_due_date].
    destruct (merge (Some (title todo)) ut) as [t|] eqn:Et.
    + destruct (merge (Some (completed todo)) uc) as [c|] eqn:Ec.
      * cbv zeta. cbn [fst snd].
        set (row := mk_TodoItem (id todo) t _ c _ _).
        exists row. split.
        { rewrite <- Hid. change (id todo) with (id row).
          apply session_get_sql_update with (old := todo).
          unfold row; cbn [id]. now rewrite Hid. }
        unfold row; cbn [id title description completed priority due_date].
        repeat split.
        -- intros ->. simpl in Et. congruence.
        -- now intros ->.
        -- intros ->. simpl in Ec. congruence.
        -- now intros ->.
        -- now intros ->.
        -- intros item E. congruence.
      * cbn [fst snd]. exists todo. repeat split; auto. discriminate.
    + cbn [fst snd]. exists todo. repeat split; auto. discriminate.
  - cbv zeta. rewrite (update_todo_db_present _ _ _ _ H). simpl. split.
    + destruct todo; reflexivity.
    + rewrite <- Hid.
      set (done := mk_TodoItem _ _ _ _ _ _).
      change (id todo) with (id done).
      apply session_get_sql_update with (old := todo).
      unfold done; cbn [id]. now rewrite Hid.
Qed.

Lemma update_keeps_unset_fields_witness :
  session_get [sample_row] 1 = Some sample_row /\
  update_todo_db [sample_row] 1
    (mk_TodoItemUpdate Unset Unset (Given (Some true)) Unset Unset)
  = ([mk_TodoItem 1 "Buy milk" None true None None],
     Returns (Some (mk_TodoItem 1 "Buy milk" None true None None))).
Proof.
  split; [reflexivity|].
  exact (proj1 (proj2 (update_keeps_unset_fields [sample_row] 1
    (mk_TodoItemUpdate Unset Unset Unset Unset Unset) sample_row eq_refl))).
Defined.

(** C6 as the spec states it fails: the item exists, the request sets
    [title] to [None], and the update raises instead of returning the
    post-update item. *)
Lemma update_present_can_raise :
  session_get [sample_row] 1 = Some sample_row /\
  update_todo_db [sample_row] 1
    (mk_TodoItemUpdate (Given None) Unset Unset Unset Unset)
  = ([sample_row],
     Raises (IntegrityError "NOT NULL constraint failed: todoitem.title")).
Proof. split; reflexivity. Qed.

(** C6 (amended). For an id that is not in the table the update returns
    [None] and leaves the table as it is.  For an id that is in the table and
    a request that does not set [title] or [completed] to [None], the update
    returns the item after the merge, which is also the row the table then
    holds under that id; a request that sets one of the two to [None] is
    refused by the NOT NULL constraint and the table is left as it is. *)
Theorem update_returns_merged_item db todo_id u :
  (session_get db todo_id = None ->
   update_todo_db db todo_id u = (db, Returns None)) /\
  (forall todo,
      session_get db todo_id = Some todo ->
      update_title u <> Given None ->
      update_completed u <> Given None ->
      exists item,
        update_todo_db db todo_id u = (sql_update db item, Returns (Some item)) /\
        session_get (sql_update db item) todo_id = Some item /\
        id item = todo_id /\
        Some (title item) = merge (Some (title todo)) (update_title u) /\
        description item = merge (description todo) (update_description u) /\
        Some (completed item) = merge (Some (completed todo)) (update_completed u) /\
        priority item = merge (priority todo) (update_priority u) /\
        due_date item = merge (due_date todo) (update_due_date u)) /\
  (forall todo,
      session_get db todo_id = Some todo ->
      update_title u = Given None \/ update_completed u = Given None ->
      exists msg,
        update_todo_db db todo_id u = (db, Raises (IntegrityError msg))).
Proof.
  split; [apply update_todo_db_absent|]. split.
  - intros todo H Ht Hc. rewrite (update_todo_db_present _ _ u _ H).
    destruct (session_get_Some _ _ _ H) as [_ Hid].
    destruct (merge (Some (title todo)) (update_title u)) as [t|] eqn:Et.
    2:{ destruct (update_title u) as [|[v|]]; simpl in Et; congruence. }
    destruct (merge (Some (completed todo)) (update_completed u)) as [c|] eqn:Ec.
    2:{ destruct (update_completed u) as [|[v|]]; simpl in Ec; congruence. }
    cbv zeta. set (row := mk_TodoItem (id todo) t _ c _ _).
    exists row. split; [reflexivity|]. split.
    + rewrite <- Hid. change (id todo) with (id row).
      apply session_get_sql_update with (old := todo).
      unfold row; cbn [id]. now rewrite Hid.
    + unfold row; cbn [id title description completed priority due_date].
      repeat split; auto.
  - intros todo H Hnull. rewrite (update_todo_db_present _ _ u _ H).
    destruct Hnull as [E|E]; rewrite E; simpl.
    + eauto.
    + destruct (merge (Some (title todo)) (update_title u)); eauto.
Qed.

Lemma update_returns_merged_item_witness :
  update_todo_db [sample_row] 2
    (mk_TodoItemUpdate Unset Unset Unset (Given (Some "High")) Unset)
  = ([sample_row], Returns None) /\
  (exists item,
      update_todo_db [sample_row] 1
        (mk_TodoItemUpdate Unset Unset Unset (Given (Some "High")) Unset)
      = (sql_update [sample_row] item, Returns (Some item)) /\
      priority item = Some "High" /\ Some (title item) = Some "Buy milk") /\
  (exists msg,
      update_todo_db [sample_row] 1
        (mk_TodoItemUpdate Unset Unset (Given None) Unset Unset)
      = ([sample_row], Raises (IntegrityError msg))).
Proof.
  split; [|split].
  - apply (proj1 (update_returns_merged_item [sample_row] 2 _)). reflexivity.
  - destruct (proj1 (proj2 (update_returns_merged_item [sample_row] 1
        (mk_TodoItemUpdate Unset Unset Unset (Given (Some "High")) Unset)))
        sample_row eq_refl) as (item & E & _ & _ & Ht & _ & _ & Hp & _).
    + discriminate.
    + discriminate.
    + exists item. split; [exact E|]. split; [exact Hp | exact Ht].
  - apply (proj2 (proj2 (update_returns_merged_item [sample_row] 1
        (mk_TodoItemUpdate Unset Unset (Given None) Unset Unset))) sample_row).
    + reflexivity.
    + right. reflexivity.
Defined.

(** ** Delete *)

(** C4. Deleting an id that is in the table returns true, and afterwards the
    list of all items holds no item with that id, while every other row is
    still there; deleting an id that is not in the table returns false. *)
Theorem delete_removes_row db todo_id :
  (In todo_id (List.map id db) ->
   snd (delete_todo_db db todo_id) = true /\
   ~ In todo_id (List.map id (get_all_todos_db (fst (delete_todo_db db todo_id)))) /\
   session_get (fst (delete_todo_db db todo_id)) todo_id = None /\
   (forall row,
       In row (get_all_todos_db (fst (delete_todo_db db todo_id))) <->
       In row db /\ id row <> todo_id)) /\
  (~ In todo_id (List.map id db) ->
   snd (delete_todo_db db todo_id) = false).
Proof.
  split.
  - intros Hin. destruct (session_get_is_Some _ _ Hin) as [row Hrow].
    rewrite (delete_todo_db_present _ _ _ Hrow). cbn [fst snd].
    unfold get_all_todos_db.
    assert (Hgone : ~ In todo_id (List.map id (sql_delete db todo_id))).
    { rewrite sql_delete_ids. tauto. }
    split; [reflexivity|]. split; [exact Hgone|]. split.
    + now apply session_get_None.
    + intros r. apply sql_delete_In.
  - intros Hout. apply session_get_None in Hout.
    now rewrite (delete_todo_db_absent _ _ Hout).
Qed.

Lemma delete_removes_row_witness :
  (snd (delete_todo_db [sample_row] 1) = true /\
   get_all_todos_db (fst (delete_todo_db [sample_row] 1)) = []) /\
  snd (delete_todo_db [sample_row] 7) = false.
Proof.
  split.
  - destruct (proj1 (delete_removes_row [sample_row] 1)) as (Ht & _).
    + simpl. now left.
    + split; [exact Ht | reflexivity].
  - apply (proj2 (delete_removes_row [sample_row] 7)).
    simpl. intros [H|[]]. discriminate H.
Defined.

(** C5. A second delete of the same id right after the first returns false
    and leaves the table exactly as the first delete left it; a delete of an
    id that is not in the table leaves the table, and so the number of items,
    as it was. *)
Theorem delete_twice db todo_id :
  delete_todo_db (fst (delete_todo_db db todo_id)) todo_id
  = (fst (delete_todo_db db todo_id), false) /\
  (~ In todo_id (List.map id db) ->
   delete_todo_db db todo_id = (db, false) /\
   List.length (get_all_todos_db (fst (delete_todo_db db todo_id)))
   = List.length (get_all_todos_db db)).
Proof.
  assert (Habs : ~ In todo_id (List.map id db) ->
                 delete_todo_db db todo_id = (db, false)).
  { intros Hout. apply delete_todo_db_absent. now apply session_get_None. }
  split.
  - destruct (session_get db todo_id) as [row|] eqn:E.
    + rewrite (delete_todo_db_present _ _ _ E). cbn [fst].
      apply delete_todo_db_absent, session_get_None.
      rewrite sql_delete_ids. tauto.
    + rewrite (delete_todo_db_absent _ _ E). cbn [fst].
      now apply delete_todo_db_absent.
  - intros Hout. rewrite (Habs Hout). split; reflexivity.
Qed.

Lemma delete_twice_witness :
  delete_todo_db [sample_row] 7 = ([sample_row], false) /\
  delete_todo_db (fst (delete_todo_db [sample_row] 1)) 1 = ([], false).
Proof.
  split.
  - apply (proj2 (delete_twice [sample_row] 7)).
    simpl. intros [H|[]]. discriminate H.
  - exact (proj1 (delete_twice [sample_row] 1)).
Defined.

(** ** Create *)

(** C2 as the spec states it fails: [create_todo_db] takes a request with an
    empty title, returns the new item and leaves one more row in the table. *)
Lemma create_accepts_empty_title :
  create_title (mk_TodoItemCreate "" None None None) = "" /\
  create_todo_db [] (mk_TodoItemCreate "" None None None)
  = ([mk_TodoItem 1 "" None false None None],
     Returns (mk_TodoItem 1 "" None false None None)) /\
  List.length (get_all_todos_db
                 (fst (create_todo_db [] (mk_TodoItemCreate "" None None None))))
  <> List.length (get_all_todos_db []).
Proof. repeat split. simpl. lia. Qed.

(** C2 (amended). The empty title is refused by the add form, not by the
    store: a submission of the form with an empty title only shows a warning,
    [create_todo_db] is not called and the table, hence its number of rows,
    is unchanged.  Whatever is submitted, the form either leaves the table as
    it is or appends one row whose title is the submitted, non-empty one. *)
Theorem add_form_rejects_empty_title w add_button new_title new_description
    new_priority new_due_date :
  add_todo_form w true "" new_description new_priority new_due_date
  = (w, [StWarning "Please enter a title for the To-Do item."]) /\
  List.length (get_all_todos_db
     (db (fst (add_todo_form w true "" new_description new_priority new_due_date))))
  = List.length (get_all_todos_db (db w)) /\
  (let w' := fst (add_todo_form w add_button new_title new_description
                    new_priority new_due_date) in
   db w' = db w \/
   exists item, db w' = db w ++ [item] /\ title item = new_title /\ new_title <> "").
Proof.
  split; [reflexivity|]. split; [reflexivity|].
  cbv zeta. unfold add_todo_form.
  destruct add_button; [|now left].
  destruct new_title as [|a rest]; [now left|]. cbn [truthy].
  set (c := mk_TodoItemCreate _ _ _ _).
  destruct (priority_ok (create_priority c)) eqn:Hok.
  - rewrite (create_todo_db_valid _ _ Hok). cbn [fst db]. right.
    eexists. split; [reflexivity|]. split; [reflexivity | discriminate].
  - destruct (create_todo_db_invalid (db w) c Hok) as [msg ->].
    cbn [fst db]. now left.
Qed.


Lemma update_todo_db_ids db i u :
  List.map id (fst (update_todo_db db i u)) = List.map id db.
Proof.
  destruct (session_get db i) as [todo|] eqn:E.
  - rewrite (update_todo_db_present _ _ u _ E).
    destruct (merge (Some (title todo)) (update_title u)); [|reflexivity].
    destruct (merge (Some (completed todo)) (update_completed u));
      [|reflexivity].
    cbv zeta. cbn [fst]. apply sql_update_ids.
  - now rewrite (update_todo_db_absent _ _ u E).
Qed.

















(** ** Session cache *)

Lemma cached_translation_evict tr i j l :
  cached_translation (cache_evict tr i) j l =
  if decide (j = i) then None else cached_translation tr j l.
Proof.
  unfold cached_translation, cache_evict.
  destruct (tr !! i) as [m|] eqn:E.
  - destruct (decide (j = i)) as [->|Hne].
    + now rewrite lookup_delete_eq.
    + now rewrite lookup_delete_ne.
  - destruct (decide (j = i)) as [->|Hne]; [now rewrite E | reflexivity].
Qed.

Lemma cached_translation_put tr i lang text j l :
  cached_translation (cache_put tr i lang text) j l =
  if decide (j = i /\ l = lang) then Some text else cached_translation tr j l.
Proof.
  unfold cached_translation, cache_put.
  destruct (tr !! i) as [m|] eqn:E.
  - rewrite E. destruct (decide (j = i)) as [->|Hne].
    + rewrite lookup_insert_eq, E.
      destruct (decide (l = lang)) as [->|Hl].
      * rewrite lookup_insert_eq. now rewrite decide_True.
      * rewrite lookup_insert_ne by congruence.
        rewrite decide_False by tauto. reflexivity.
    + rewrite lookup_insert_ne by congruence.
      rewrite decide_False by tauto. reflexivity.
  - rewrite lookup_insert_eq. destruct (decide (j = i)) as [->|Hne].
    + rewrite lookup_insert_eq, E.
      destruct (decide (l = lang)) as [->|Hl].
      * rewrite lookup_insert_eq. now rewrite decide_True.
      * rewrite lookup_insert_ne by congruence.
        rewrite decide_False by tauto. apply lookup_empty.
    + rewrite !lookup_insert_ne by congruence.
      rewrite decide_False by tauto. reflexivity.
Qed.

(** C7. After the delete button has run on an item, the cache holds no entry
    under the id of that item, so the lookup of a translation of that item is
    absent for every language; the row is deleted from the table by
    [delete_todo_db]. *)
Theorem delete_button_evicts_cache w todo language :
  translations (fst (delete_button w todo)) !! id todo = None /\
  cached_translation (translations (fst (delete_button w todo))) (id todo) language
  = None /\
  db (fst (delete_button w todo)) = fst (delete_todo_db (db w) (id todo)).
Proof.
  unfold delete_button.
  destruct (delete_todo_db (db w) (id todo)) as [db' r]. cbn [fst db translations].
  split; [|split].
  - unfold cache_evict. destruct (translations w !! id todo) eqn:E.
    + apply lookup_delete_eq.
    + exact E.
  - rewrite cached_translation_evict. now rewrite decide_True.
  - reflexivity.
Qed.

(** ** Translation *)

(** C8. When no API key is set (the variable is missing or empty), or the
    configuration of the client raised, [gemini_model] is [None]; then for
    every text and language the translation returns [None] with the
    "not available" message, and no request goes to the API. *)
Theorem translate_unavailable_without_credential key connect text language :
  key = None \/ key = Some "" \/
    (exists k e, key = Some k /\ connect k = Raises e) ->
  fst (configure_gemini key connect) = None /\
  translate_text_gemini (fst (configure_gemini key connect)) text language
  = (None,
     [StError "Translation service not available. API key might be missing or invalid."]) /\
  api_calls (snd (translate_text_gemini (fst (configure_gemini key connect))
                    text language)) = [].
Proof.
  intros Hkey.
  assert (Hnone : fst (configure_gemini key connect) = None).
  { destruct Hkey as [->|[->|(k & e & -> & Hc)]]; try reflexivity.
    unfold configure_gemini. destruct (truthy k); [|reflexivity].
    now rewrite Hc. }
  rewrite Hnone. repeat split.
Qed.

Lemma translate_unavailable_without_credential_witness :
  translate_text_gemini
    (fst (configure_gemini None (fun _ => Raises (ApiError "unreachable"))))
    "Buy milk" "Spanish"
  = (None,
     [StError "Translation service not available. API key might be missing or invalid."]) /\
  api_calls (snd (translate_text_gemini
    (fst (configure_gemini None (fun _ => Raises (ApiError "unreachable"))))
    "Buy milk" "Spanish")) = [].
Proof.
  apply (translate_unavailable_without_credential None
           (fun _ => Raises (ApiError "unreachable")) "Buy milk" "Spanish").
  left. reflexivity.
Defined.

(** C10. When the translation returns [None] (no model configured, or the
    call raised) the translate button leaves the session state, and so the
    cache, as it was.  A cache lookup changes only for the item and the
    language of the button, and only when the translation returned a
    non-empty text, which is then the cached value. *)
Theorem failed_translation_keeps_cache gemini_model target_language w todo :
  (fst (translate_text_gemini gemini_model (text_to_translate todo) target_language)
   = None ->
   fst (translate_button gemini_model target_language w todo) = w) /\
  (gemini_model = None ->
   fst (translate_button gemini_model target_language w todo) = w) /\
  (forall model e,
      gemini_model = Some model ->
      model (translation_prompt (text_to_translate todo) target_language) = Raises e ->
      fst (translate_button gemini_model target_language w todo) = w) /\
  (forall j l,
      cached_translation
        (translations (fst (translate_button gemini_model target_language w todo))) j l
      <> cached_translation (translations w) j l ->
      j = id todo /\ l = target_language /\
      exists text,
        fst (translate_text_gemini gemini_model (text_to_translate todo) target_language)
        = Some text /\
        text <> "" /\
        cached_translation
          (translations (fst (translate_button gemini_model target_language w todo))) j l
        = Some text).
Proof.
  assert (Hfail :
    fst (translate_text_gemini gemini_model (text_to_translate todo) target_language)
    = None ->
    fst (translate_button gemini_model target_language w todo) = w).
  { unfold translate_button.
    destruct (translate_text_gemini gemini_model (text_to_translate todo)
                target_language) as [[text|] evs]; cbn [fst].
    - discriminate.
    - reflexivity. }
  split; [exact Hfail|]. split; [|split].
  - intros ->. apply Hfail. reflexivity.
  - intros model e -> He. apply Hfail. unfold translate_text_gemini.
    cbv zeta. now rewrite He.
  - intros j l. unfold translate_button.
    destruct (translate_text_gemini gemini_model (text_to_translate todo)
                target_language) as [[text|] evs]; cbn [fst].
    + destruct text as [|a rest]; cbn [truthy fst translations].
      * congruence.
      * rewrite cached_translation_put.
        destruct (decide (j = id todo /\ l = target_language)) as [[-> ->]|Hn].
        -- intros _. split; [reflexivity|]. split; [reflexivity|].
           eexists. split; [reflexivity|]. split; [discriminate | reflexivity].
        -- congruence.
    + congruence.
Qed.

Lemma failed_translation_keeps_cache_witness :
  fst (translate_button None "Spanish" (mk_world [sample_row] ∅) sample_row)
  = mk_world [sample_row] ∅.
Proof.
  apply (proj1 (failed_translation_keeps_cache None "Spanish"
                  (mk_world [sample_row] ∅) sample_row)).
  reflexivity.
Defined.

(** ** View *)

(** C9. The two lists the page shows are exactly the items of the list with
    [completed] false and those with [completed] true; no item is in both,
    together they are a rearrangement of the whole list, and each keeps the
    order of the list returned by the store. *)
Theorem view_partitions_todos (todos : list TodoItem) :
  (forall todo, In todo (incomplete_todos todos) <->
                In todo todos /\ completed todo = false) /\
  (forall todo, In todo (completed_todos todos) <->
                In todo todos /\ completed todo = true) /\
  (forall todo, ~ (In todo (incomplete_todos todos) /\
                   In todo (completed_todos todos))) /\
  Permutation todos (incomplete_todos todos ++ completed_todos todos) /\
  sublist (incomplete_todos todos) todos /\
  sublist (completed_todos todos) todos.
Proof.
  unfold incomplete_todos, completed_todos.
  split; [|split; [|split; [|split; [|split]]]].
  - intros todo. rewrite filter_In. now rewrite negb_true_iff.
  - intros todo. now rewrite filter_In.
  - intros todo. rewrite !filter_In. intros [[_ H1] [_ H2]].
    rewrite H2 in H1. discriminate.
  - induction todos as [|t rest IH]; [constructor|].
    simpl. destruct (completed t); simpl.
    + now apply Permutation_cons_app.
    + now constructor.
  - induction todos as [|t rest IH]; [constructor|].
    simpl. destruct (completed t); simpl; now constructor.
  - induction todos as [|t rest IH]; [constructor|].
    simpl. destruct (completed t); simpl; now constructor.
Qed.

(** * Further properties of the store *)

Lemma strongly_sorted_snoc (l : list Z) x :
  Sorted.StronglySorted Z.lt l ->
  (forall y, In y l -> y < x) ->
  Sorted.StronglySorted Z.lt (l ++ [x]).
Proof.
  induction l as [|a l IH]; intros Hs Hlt; simpl.
  - constructor; constructor.
  - inversion Hs as [|? ? Hs' Hall]; subst. constructor.
    + apply IH; [exact Hs' | intros y Hy; apply Hlt; now right].
    + rewrite List.Forall_forall in *. intros y Hy.
      apply in_app_iff in Hy. destruct Hy as [Hy|[<-|[]]].
      * now apply Hall.
      * apply Hlt. now left.
Qed.

Lemma strongly_sorted_sql_delete db i :
  Sorted.StronglySorted Z.lt (List.map id db) ->
  Sorted.StronglySorted Z.lt (List.map id (sql_delete db i)).
Proof.
  unfold sql_delete. induction db as [|r db IH]; simpl; intros Hs.
  - constructor.
  - inversion Hs as [|? ? Hs' Hall]; subst.
    destruct (negb (id r =? i)); simpl; [|now apply IH].
    constructor; [now apply IH|].
    rewrite List.Forall_forall in *. intros y Hy. apply Hall.
    apply in_map_iff in Hy. destruct Hy as (row & <- & Hin).
    apply filter_In in Hin. apply in_map. tauto.
Qed.

Lemma strongly_sorted_NoDup (l : list Z) :
  Sorted.StronglySorted Z.lt l -> NoDup l.
Proof.
  induction 1 as [|a l Hs IH Hall]; constructor; [|exact IH].
  intros Hin. apply list_elem_of_In in Hin.
  rewrite List.Forall_forall in Hall. specialize (Hall _ Hin). lia.
Qed.

Lemma rowid_ordered_create db c :
  rowid_ordered db -> rowid_ordered (fst (create_todo_db db c)).
Proof.
  intros [Hs Hpos]. destruct (priority_ok (create_priority c)) eqn:Hok.
  - rewrite (create_todo_db_valid _ _ Hok). cbn [fst]. split.
    + rewrite List.map_app. simpl. apply strongly_sorted_snoc; [exact Hs|].
      intros y Hy. apply in_map_iff in Hy. destruct Hy as (row & <- & Hin).
      now apply next_rowid_above.
    + intros row Hin. apply in_app_iff in Hin. destruct Hin as [Hin|[<-|[]]].
      * now apply Hpos.
      * cbn [id]. now apply next_rowid_pos.
  - destruct (create_todo_db_invalid db c Hok) as [msg ->]. now split.
Qed.

Lemma update_todo_db_rows db i u row :
  In row (fst (update_todo_db db i u)) ->
  In row db \/ id row = i /\ In i (List.map id db).
Proof.
  destruct (session_get db i) as [todo|] eqn:E.
  - destruct (session_get_Some _ _ _ E) as [Hin Hid].
    rewrite (update_todo_db_present _ _ u _ E).
    destruct (merge (Some (title todo)) (update_title u)); [|now left].
    destruct (merge (Some (completed todo)) (update_completed u)); [|now left].
    cbv zeta. cbn [fst]. unfold sql_update. intros H.
    apply in_map_iff in H. destruct H as (r & Hr & Hrin). cbn [id] in Hr.
    destruct (Z.eqb_spec (id r) (id todo)) as [Er|Er].
    + right. subst row. cbn [id]. split; [exact Hid|].
      rewrite <- Hid. now apply in_map.
    + left. now subst row.
  - rewrite (update_todo_db_absent _ _ u E). now left.
Qed.

Lemma rowid_ordered_update db i u :
  rowid_ordered db -> rowid_ordered (fst (update_todo_db db i u)).
Proof.
  intros [Hs Hpos]. split.
  - now rewrite update_todo_db_ids.
  - intros row Hin.
    assert (Hid : In (id row) (List.map id (fst (update_todo_db db i u))))
      by now apply in_map.
    rewrite update_todo_db_ids in Hid. apply in_map_iff in Hid.
    destruct Hid as (r & Hr & Hrin). rewrite <- Hr. now apply Hpos.
Qed.

Lemma rowid_ordered_delete db i :
  rowid_ordered db -> rowid_ordered (fst (delete_todo_db db i)).
Proof.
  intros [Hs Hpos]. rewrite delete_todo_db_table. split.
  - now apply strongly_sorted_sql_delete.
  - intros row Hin. apply sql_delete_In in Hin. apply Hpos. tauto.
Qed.

Lemma rowid_ordered_step db o :
  rowid_ordered db -> rowid_ordered (fst (step db o)).
Proof.
  intros H. destruct o as [c|j u|j]; cbn [step].
  - assert (Hc := rowid_ordered_create db c H).
    destruct (create_todo_db db c) as [db' [item|e]]; exact Hc.
  - now apply rowid_ordered_update.
  - now apply rowid_ordered_delete.
Qed.

Lemma rowid_ordered_run ops : forall db,
  rowid_ordered db -> rowid_ordered (fst (run db ops)).
Proof.
  induction ops as [|o ops IH]; intros db H; [exact H|].
  cbn [run]. assert (Hs := rowid_ordered_step db o H).
  destruct (step db o) as [db1 created]. cbn [fst] in Hs.
  specialize (IH db1 Hs). destruct (run db1 ops) as [db2 ids]. exact IH.
Qed.

Lemma session_get_unique db row :
  NoDup (List.map id db) -> In row db -> session_get db (id row) = Some row.
Proof.
  unfold session_get. induction db as [|r db IH]; simpl; intros Hnd Hin.
  - contradiction.
  - apply NoDup_cons in Hnd. destruct Hnd as [Hnotin Hnd].
    destruct Hin as [->|Hin].
    + now rewrite Z.eqb_refl.
    + destruct (Z.eqb_spec (id r) (id row)) as [E|E].
      * exfalso. apply Hnotin. rewrite E. apply list_elem_of_In.
        now apply in_map.
      * now apply IH.
Qed.

(** X1. Every sequence of creates, updates and deletes keeps the table in
    strictly ascending id order with ids from 1 upwards; so the ids of the
    listed items are pairwise distinct, and the lookup by id of a listed item
    gives back that very item.  The empty table has the shape. *)
Theorem run_keeps_rowid_order db ops :
  rowid_ordered db ->
  rowid_ordered (fst (run db ops)) /\
  NoDup (List.map id (get_all_todos_db (fst (run db ops)))) /\
  (forall row, In row (get_all_todos_db (fst (run db ops))) ->
               session_get (fst (run db ops)) (id row) = Some row).
Proof.
  intros H. assert (Hr := rowid_ordered_run ops db H).
  assert (Hnd : NoDup (List.map id (fst (run db ops))))
    by (apply strongly_sorted_NoDup, Hr).
  split; [exact Hr|]. split; [exact Hnd|].
  intros row Hin. now apply session_get_unique.
Qed.

Lemma run_keeps_rowid_order_witness :
  rowid_ordered [] /\
  NoDup (List.map id (get_all_todos_db (fst (run []
    [Create (mk_TodoItemCreate "Buy milk" None None None);
     Create (mk_TodoItemCreate "Buy eggs" None None None);
     Delete 1;
     Create (mk_TodoItemCreate "Call mum" None None None)])))).
Proof.
  assert (H0 : rowid_ordered []).
  { split; [constructor | intros row []]. }
  split; [exact H0|].
  exact (proj1 (proj2 (run_keeps_rowid_order [] _ H0))).
Defined.

Lemma session_get_sql_delete_ne db i j :
  j <> i -> session_get (sql_delete db i) j = session_get db j.
Proof.
  intros Hne. unfold session_get, sql_delete.
  induction db as [|r db IH]; simpl; [reflexivity|].
  destruct (Z.eqb_spec (id r) i) as [E|E]; simpl.
  - destruct (Z.eqb_spec (id r) j); [congruence | exact IH].
  - destruct (Z.eqb_spec (id r) j); [reflexivity | exact IH].
Qed.

Lemma session_get_app_old db row j :
  j <> id row -> session_get (db ++ [row]) j = session_get db j.
Proof.
  intros Hne. unfold session_get. induction db as [|r db IH]; simpl.
  - destruct (Z.eqb_spec (id row) j); [congruence | reflexivity].
  - destruct (Z.eqb_spec (id r) j); [reflexivity | exact IH].
Qed.

Lemma sql_update_same db row :
  sql_update (sql_update db row) row = sql_update db row.
Proof.
  unfold sql_update. rewrite List.map_map. apply List.map_ext. intros r.
  destruct (Z.eqb_spec (id r) (id row)) as [E|E].
  - now rewrite Z.eqb_refl.
  - destruct (Z.eqb_spec (id r) (id row)); [contradiction | reflexivity].
Qed.

Lemma merge_twice {A} (old : option A) (f : field A) :
  merge (merge old f) f = merge old f.
Proof. destruct f; reflexivity. Qed.

Lemma sql_delete_length db i :
  NoDup (List.map id db) -> In i (List.map id db) ->
  S (List.length (sql_delete db i)) = List.length db.
Proof.
  unfold sql_delete. induction db as [|r db IH]; simpl; intros Hnd Hin.
  - contradiction.
  - apply NoDup_cons in Hnd. destruct Hnd as [Hnotin Hnd].
    destruct (Z.eqb_spec (id r) i) as [E|E]; simpl.
    + f_equal. fold (sql_delete db i). f_equal. apply sql_delete_absent.
      intros Hi. apply Hnotin. rewrite E. now apply list_elem_of_In.
    + f_equal. apply IH; [exact Hnd|]. destruct Hin; [contradiction | assumption].
Qed.

(** X2. An update touches one row only: the lookup of every other id gives
    what it gave before, and the ids and the number of rows of the table are
    those before the call, whatever the outcome of the update. *)
Theorem update_leaves_other_rows db todo_id u j :
  j <> todo_id ->
  session_get (fst (update_todo_db db todo_id u)) j = session_get db j /\
  List.map id (fst (update_todo_db db todo_id u)) = List.map id db /\
  List.length (fst (update_todo_db db todo_id u)) = List.length db.
Proof.
  intros Hne. split; [|split].
  - destruct (session_get db todo_id) as [todo|] eqn:E.
    + destruct (session_get_Some _ _ _ E) as [_ Hid].
      rewrite (update_todo_db_present _ _ u _ E).
      destruct (merge (Some (title todo)) (update_title u)); [|reflexivity].
      destruct (merge (Some (completed todo)) (update_completed u));
        [|reflexivity].
      cbv zeta. cbn [fst]. apply session_get_sql_update_ne. cbn [id]. congruence.
    + now rewrite (update_todo_db_absent _ _ u E).
  - apply update_todo_db_ids.
  - rewrite <- (List.length_map id), update_todo_db_ids.
    apply List.length_map.
Qed.

Lemma update_leaves_other_rows_witness :
  session_get (fst (update_todo_db
      [sample_row; mk_TodoItem 2 "Buy eggs" None false None None] 1
      (mk_TodoItemUpdate Unset Unset (Given (Some true)) Unset Unset))) 2
  = Some (mk_TodoItem 2 "Buy eggs" None false None None).
Proof.
  apply (update_leaves_other_rows
           [sample_row; mk_TodoItem 2 "Buy eggs" None false None None] 1
           (mk_TodoItemUpdate Unset Unset (Given (Some true)) Unset Unset) 2).
  discriminate.
Defined.

(** X3. A create whose priority is absent or at most 50 characters long
    (characters, not bytes: 26 accented letters are 52 bytes and pass)
    returns an item that copies title, description, priority and due date
    from the request and is not completed.  The table has one row more, the
    lookup of the new id gives the returned item, and the lookup of every
    other id gives what it gave before. *)
Theorem create_stores_request db c :
  priority_ok (create_priority c) = true ->
  exists item,
    snd (create_todo_db db c) = Returns item /\
    title item = create_title c /\
    description item = create_description c /\
    completed item = false /\
    priority item = create_priority c /\
    due_date item = create_due_date c /\
    List.length (fst (create_todo_db db c)) = S (List.length db) /\
    session_get (fst (create_todo_db db c)) (id item) = Some item /\
    (forall j, j <> id item ->
               session_get (fst (create_todo_db db c)) j = session_get db j).
Proof.
  intros Hok. rewrite (create_todo_db_valid _ _ Hok). cbn [fst snd].
  eexists. split; [reflexivity|].
  cbn [id title description completed priority due_date].
  repeat split.
  - rewrite List.length_app. simpl. lia.
  - apply (session_get_insert db (mk_TodoItem (next_rowid db) _ _ _ _ _)).
    apply next_rowid_fresh.
  - intros j Hj. now apply session_get_app_old.
Qed.

Lemma create_stores_request_witness :
  exists item,
    snd (create_todo_db [sample_row]
           (mk_TodoItemCreate "Buy eggs" (Some "a dozen")
              (Some "éééééééééééééééééééééééééé") None))
    = Returns item /\
    title item = "Buy eggs" /\ completed item = false /\
    priority item = Some "éééééééééééééééééééééééééé".
Proof.
  destruct (create_stores_request [sample_row]
              (mk_TodoItemCreate "Buy eggs" (Some "a dozen")
                 (Some "éééééééééééééééééééééééééé") None)
              eq_refl) as (item & E & Ht & _ & Hc & Hp & _).
  exists item. split; [exact E|]. split; [exact Ht|]. split; [exact Hc | exact Hp].
Defined.

(** X4. A create fails exactly when the priority of the request is longer
    than 50 characters; it then raises a validation error and the table is
    left as it was. *)
Theorem create_rejects_long_priority db c :
  ((exists e, snd (create_todo_db db c) = Raises e) <->
   exists p, create_priority c = Some p /\ (50 < char_length p)%nat) /\
  (forall e, snd (create_todo_db db c) = Raises e ->
             (exists msg, e = ValidationError msg) /\
             fst (create_todo_db db c) = db).
Proof.
  destruct (priority_ok (create_priority c)) eqn:Hok.
  - rewrite (create_todo_db_valid _ _ Hok). cbn [fst snd]. split.
    + split.
      * intros [e He]. discriminate.
      * intros (p & Hp & Hlen). rewrite Hp in Hok. simpl in Hok.
        apply Nat.leb_le in Hok. lia.
    + intros e He. discriminate.
  - destruct (create_todo_db_invalid db c Hok) as [msg ->]. cbn [fst snd].
    split.
    + split.
      * intros _. destruct (create_priority c) as [p|]; [|discriminate].
        exists p. split; [reflexivity|]. simpl in Hok.
        apply Nat.leb_gt in Hok. exact Hok.
      * intros _. eauto.
    + intros e He. injection He as <-. split; [eauto | reflexivity].
Qed.

Lemma create_rejects_long_priority_witness :
  fst (create_todo_db [sample_row]
         (mk_TodoItemCreate "Buy eggs" None
            (Some "012345678901234567890123456789012345678901234567890") None))
  = [sample_row].
Proof.
  eapply (proj2 (create_rejects_long_priority [sample_row]
            (mk_TodoItemCreate "Buy eggs" None
               (Some "012345678901234567890123456789012345678901234567890") None))).
  reflexivity.
Defined.

(** X5. Deleting the item a create has just returned gives back the table of
    before the create: the delete returns true and no other row is lost. *)
Theorem delete_undoes_create db c item :
  snd (create_todo_db db c) = Returns item ->
  delete_todo_db (fst (create_todo_db db c)) (id item) = (db, true).
Proof.
  destruct (priority_ok (create_priority c)) eqn:Hok.
  - rewrite (create_todo_db_valid _ _ Hok). cbn [fst snd].
    intros E. injection E as <-. cbn [id].
    set (item := mk_TodoItem _ _ _ _ _ _).
    assert (Hget : session_get (db ++ [item]) (next_rowid db) = Some item).
    { apply (session_get_insert db item). apply next_rowid_fresh. }
    rewrite (delete_todo_db_present _ _ _ Hget). f_equal.
    unfold sql_delete. rewrite List.filter_app. simpl.
    rewrite Z.eqb_refl. simpl. rewrite app_nil_r.
    apply sql_delete_absent, next_rowid_fresh.
  - destruct (create_todo_db_invalid db c Hok) as [msg ->]. discriminate.
Qed.

Lemma delete_undoes_create_witness :
  delete_todo_db
    (fst (create_todo_db [sample_row] (mk_TodoItemCreate "Buy eggs" None None None)))
    2
  = ([sample_row], true).
Proof.
  apply (delete_undoes_create [sample_row]
           (mk_TodoItemCreate "Buy eggs" None None None)
           (mk_TodoItem 2 "Buy eggs" None false None None)).
  reflexivity.
Defined.

(** X6. An update is idempotent: the same request applied a second time to
    the same id gives the same result and leaves the table as the first
    application left it. *)
Theorem update_twice db todo_id u :
  update_todo_db (fst (update_todo_db db todo_id u)) todo_id u
  = update_todo_db db todo_id u.
Proof.
  destruct (session_get db todo_id) as [todo|] eqn:E.
  - destruct (session_get_Some _ _ _ E) as [_ Hid].
    rewrite (update_todo_db_present _ _ u _ E).
    destruct (merge (Some (title todo)) (update_title u)) as [t|] eqn:Et.
    2:{ cbn [fst]. rewrite (update_todo_db_present _ _ u _ E).
        now rewrite Et. }
    destruct (merge (Some (completed todo)) (update_completed u)) as [c|] eqn:Ec.
    2:{ cbn [fst]. rewrite (update_todo_db_present _ _ u _ E).
        now rewrite Et, Ec. }
    cbv zeta. cbn [fst]. set (row := mk_TodoItem (id todo) t _ c _ _).
    assert (Hget : session_get (sql_update db row) todo_id = Some row).
    { rewrite <- Hid. change (id todo) with (id row).
      apply session_get_sql_update with (old := todo).
      unfold row; cbn [id]. now rewrite Hid. }
    assert (Ht' : merge (Some t) (update_title u) = Some t).
    { rewrite <- Et at 1. rewrite merge_twice. exact Et. }
    assert (Hc' : merge (Some c) (update_completed u) = Some c).
    { rewrite <- Ec at 1. rewrite merge_twice. exact Ec. }
    rewrite (update_todo_db_present _ _ u _ Hget).
    subst row. cbn [id title description completed priority due_date].
    rewrite Ht', Hc', !merge_twice. cbv zeta.
    now rewrite sql_update_same.
  - rewrite (update_todo_db_absent _ _ u E). cbn [fst].
    apply (update_todo_db_absent _ _ u E).
Qed.

(** X7. On a table with pairwise distinct ids, the delete of an id that is
    in the table removes exactly one row; and whatever the table, the lookup
    of every other id gives what it gave before the delete. *)
Theorem delete_removes_one_row db todo_id :
  (NoDup (List.map id db) -> In todo_id (List.map id db) ->
   S (List.length (fst (delete_todo_db db todo_id))) = List.length db) /\
  (forall j, j <> todo_id ->
             session_get (fst (delete_todo_db db todo_id)) j = session_get db j).
Proof.
  rewrite delete_todo_db_table. split.
  - apply sql_delete_length.
  - intros j Hj. now apply session_get_sql_delete_ne.
Qed.

Lemma delete_removes_one_row_witness :
  S (List.length (fst (delete_todo_db
       [sample_row; mk_TodoItem 2 "Buy eggs" None false None None] 1))) = 2%nat /\
  session_get (fst (delete_todo_db
       [sample_row; mk_TodoItem 2 "Buy eggs" None false None None] 1)) 2
  = Some (mk_TodoItem 2 "Buy eggs" None false None None).
Proof.
  split.
  - apply (proj1 (delete_removes_one_row
             [sample_row; mk_TodoItem 2 "Buy eggs" None false None None] 1)).
    + simpl. repeat constructor; rewrite ?list_elem_of_In; simpl; intuition discriminate.
    + simpl. now left.
  - apply (proj2 (delete_removes_one_row
             [sample_row; mk_TodoItem 2 "Buy eggs" None false None None] 1)).
    discriminate.
Defined.

(** * Further properties of the page *)

Lemma world_eta w : mk_world (db w) (translations w) = w.
Proof. now destruct w. Qed.

Lemma incomplete_todos_sql_update db row :
  completed row = true ->
  incomplete_todos (sql_update db row) = sql_delete (incomplete_todos db) (id row).
Proof.
  intros Hc. unfold incomplete_todos, sql_update, sql_delete.
  induction db as [|r db IH]; simpl; [reflexivity|].
  destruct (Z.eqb_spec (id r) (id row)) as [E|E].
  - rewrite Hc. simpl. destruct (completed r); simpl; [exact IH|].
    destruct (Z.eqb_spec (id r) (id row)); [exact IH | contradiction].
  - destruct (completed r); simpl; [exact IH|].
    destruct (Z.eqb_spec (id r) (id row)); [contradiction|]. simpl.
    now rewrite IH.
Qed.

Lemma mark_completed_present w todo row :
  session_get (db w) (id todo) = Some row ->
  mark_completed w todo
  = (mk_world
       (sql_update (db w)
          (mk_TodoItem (id row) (title row) (description row) true
             (priority row) (due_date row)))
       (translations w),
     [StRerun]).
Proof.
  intros H. unfold mark_completed.
  rewrite (update_todo_db_present _ _ _ _ H). reflexivity.
Qed.

(** X8. The "Mark Completed" button on an item that is in the table sets its
    [completed] flag and nothing else of the row, leaves the translation
    cache as it was and asks for a rerun; the pending list of the new table
    is the old pending list without that item, and the item is in the
    completed list.  On an id that is no longer in the table the button
    changes nothing. *)
Theorem mark_completed_moves_item w todo :
  (forall row,
      session_get (db w) (id todo) = Some row ->
      let done := mk_TodoItem (id row) (title row) (description row) true
                    (priority row) (due_date row) in
      session_get (db (fst (mark_completed w todo))) (id todo) = Some done /\
      translations (fst (mark_completed w todo)) = translations w /\
      snd (mark_completed w todo) = [StRerun] /\
      incomplete_todos (db (fst (mark_completed w todo)))
      = sql_delete (incomplete_todos (db w)) (id todo) /\
      In done (completed_todos (db (fst (mark_completed w todo))))) /\
  (session_get (db w) (id todo) = None ->
   fst (mark_completed w todo) = w).
Proof.
  split.
  - intros row H done. destruct (session_get_Some _ _ _ H) as [Hin Hid].
    rewrite (mark_completed_present _ _ _ H). cbn [fst snd db translations].
    fold done.
    assert (Hget : session_get (sql_update (db w) done) (id todo) = Some done).
    { rewrite <- Hid. change (id row) with (id done).
      apply session_get_sql_update with (old := row).
      unfold done; cbn [id]. now rewrite Hid. }
    split; [exact Hget|]. split; [reflexivity|]. split; [reflexivity|]. split.
    + rewrite incomplete_todos_sql_update by reflexivity.
      unfold done; cbn [id]. now rewrite Hid.
    + unfold completed_todos. apply filter_In. split; [|reflexivity].
      now apply session_get_Some in Hget.
  - intros H. unfold mark_completed.
    rewrite (update_todo_db_absent _ _ _ H). apply world_eta.
Qed.

Lemma mark_completed_moves_item_witness :
  session_get (db (fst (mark_completed (mk_world [sample_row] ∅) sample_row))) 1
  = Some (mk_TodoItem 1 "Buy milk" None true None None) /\
  fst (mark_completed (mk_world [] ∅) sample_row) = mk_world [] ∅.
Proof.
  split.
  - exact (proj1 (proj1 (mark_completed_moves_item (mk_world [sample_row] ∅)
                           sample_row) sample_row eq_refl)).
  - apply (proj2 (mark_completed_moves_item (mk_world [] ∅) sample_row)).
    reflexivity.
Defined.

Lemma completed_row_eta row :
  completed row = true ->
  mk_TodoItem (id row) (title row) (description row) true (priority row)
    (due_date row) = row.
Proof. destruct row; simpl; now intros ->. Qed.

(** X9. No button of the page turns a completed item back to pending: a row
    that is completed is found unchanged under its id after the add form,
    after "Mark Completed" and after "Translate", whatever item those run
    on, and after "Delete" it is either unchanged or gone. *)
Theorem completed_stays_completed gemini_model target_language w i row :
  session_get (db w) i = Some row ->
  completed row = true ->
  (forall add_button t d p dd,
      session_get (db (fst (add_todo_form w add_button t d p dd))) i = Some row) /\
  (forall todo, session_get (db (fst (mark_completed w todo))) i = Some row) /\
  (forall todo,
      session_get
        (db (fst (translate_button gemini_model target_language w todo))) i
      = Some row) /\
  (forall todo,
      session_get (db (fst (delete_button w todo))) i = Some row \/
      session_get (db (fst (delete_button w todo))) i = None /\ id todo = i).
Proof.
  intros H Hc. destruct (session_get_Some _ _ _ H) as [Hin Hid].
  split; [|split; [|split]].
  - intros add_button t d p dd. unfold add_todo_form.
    destruct add_button; [|exact H].
    destruct (truthy t); [|exact H].
    set (c := mk_TodoItemCreate _ _ _ _).
    destruct (priority_ok (create_priority c)) eqn:Hok.
    + rewrite (create_todo_db_valid _ _ Hok). cbn [fst db].
      rewrite session_get_app_old; [exact H|]. cbn [id].
      apply next_rowid_above in Hin. lia.
    + destruct (create_todo_db_invalid (db w) c Hok) as [msg ->]. exact H.
  - intros todo. destruct (session_get (db w) (id todo)) as [r|] eqn:E.
    + rewrite (mark_completed_present _ _ _ E). cbn [fst db].
      destruct (session_get_Some _ _ _ E) as [_ Hr].
      destruct (Z.eq_dec i (id todo)) as [Ei|Ei].
      * assert (r = row) by congruence. subst r.
        rewrite (completed_row_eta _ Hc).
        rewrite <- Hid. apply session_get_sql_update with (old := row).
        now rewrite Hid.
      * rewrite session_get_sql_update_ne; [exact H|]. cbn [id]. congruence.
    + unfold mark_completed. rewrite (update_todo_db_absent _ _ _ E). exact H.
  - intros todo. unfold translate_button.
    destruct (translate_text_gemini gemini_model (text_to_translate todo)
                target_language) as [[text|] evs]; [|exact H].
    destruct (truthy text); exact H.
  - intros todo. unfold delete_button.
    assert (Ht := delete_todo_db_table (db w) (id todo)).
    destruct (delete_todo_db (db w) (id todo)) as [db' r]. cbn [fst] in Ht.
    subst db'. cbn [fst db].
    destruct (Z.eq_dec (id todo) i) as [Ei|Ei].
    + right. split; [|exact Ei]. apply session_get_None.
      rewrite sql_delete_ids. intros [_ Hne]. congruence.
    + left. rewrite session_get_sql_delete_ne; [exact H | congruence].
Qed.

Lemma completed_stays_completed_witness :
  session_get
    (db (fst (mark_completed
       (mk_world [mk_TodoItem 1 "Buy milk" None true None None] ∅) sample_row))) 1
  = Some (mk_TodoItem 1 "Buy milk" None true None None).
Proof.
  apply (proj1 (proj2 (completed_stays_completed None "Spanish"
    (mk_world [mk_TodoItem 1 "Buy milk" None true None None] ∅) 1
    (mk_TodoItem 1 "Buy milk" None true None None) eq_refl eq_refl))).
Defined.

(** X10. When the model answers with a non-empty text, the "Translate"
    button stores it in the cache under the item and the selected language,
    leaves every other cache lookup and the table as they were, sends exactly
    one request and asks for a rerun.  When the model answers with the empty
    text nothing is cached and no rerun is asked. *)
Theorem translate_button_caches_text model target_language w todo text :
  model (translation_prompt (text_to_translate todo) target_language)
  = Returns text ->
  let r := translate_button (Some model) target_language w todo in
  (text <> "" ->
   cached_translation (translations (fst r)) (id todo) target_language
   = Some text /\
   (forall j l, ~ (j = id todo /\ l = target_language) ->
                cached_translation (translations (fst r)) j l
                = cached_translation (translations w) j l) /\
   db (fst r) = db w /\
   snd r = [GenerateContent
              (translation_prompt (text_to_translate todo) target_language);
            StRerun]) /\
  (text = "" ->
   r = (w, [GenerateContent
              (translation_prompt (text_to_translate todo) target_language)])).
Proof.
  intros Hm r. subst r. unfold translate_button, translate_text_gemini.
  cbv zeta. rewrite Hm. split.
  - intros Hne. destruct text as [|a rest]; [contradiction|].
    cbn [truthy fst snd db translations]. split; [|split; [|split]].
    + rewrite cached_translation_put. now rewrite decide_True.
    + intros j l Hjl. rewrite cached_translation_put.
      now rewrite decide_False.
    + reflexivity.
    + reflexivity.
  - intros ->. reflexivity.
Qed.

Lemma translate_button_caches_text_witness :
  cached_translation
    (translations (fst (translate_button
       (Some (fun _ => Returns "Comprar leche")) "Spanish"
       (mk_world [sample_row] ∅) sample_row))) 1 "Spanish"
  = Some "Comprar leche".
Proof.
  apply (proj1 (translate_button_caches_text (fun _ => Returns "Comprar leche")
                  "Spanish" (mk_world [sample_row] ∅) sample_row
                  "Comprar leche" eq_refl)).
  discriminate.
Defined.

(** X11. A translation sends at most one request to the API, and a request it
    sends is the prompt built from the text and the language: there is no
    retry.  It returns a text exactly when a model is configured and the
    model returns that text for the prompt; when the model raises, the
    translation returns [None] after the one request and reports the cause. *)
Theorem translate_calls_api_once gemini_model text target_language :
  let r := translate_text_gemini gemini_model text target_language in
  let prompt := translation_prompt text target_language in
  (List.length (api_calls (snd r)) <= 1)%nat /\
  (forall p, In p (api_calls (snd r)) -> p = prompt) /\
  (forall t, fst r = Some t <->
             exists model, gemini_model = Some model /\ model prompt = Returns t) /\
  (forall model e,
      gemini_model = Some model -> model prompt = Raises e ->
      r = (None, [GenerateContent prompt;
                  StError ("Gemini translation error: " +:+ str_exn e)])).
Proof.
  cbv zeta. unfold translate_text_gemini.
  destruct gemini_model as [model|]; cbv zeta.
  - destruct (model (translation_prompt text target_language)) as [t0|e0] eqn:Em;
      cbn [fst snd api_calls omap]; simpl.
    + split; [lia|]. split; [intros p [<-|[]]; reflexivity|]. split.
      * intros t. split.
        -- intros [= <-]. exists model. now split.
        -- intros (m & [= <-] & Hm). congruence.
      * intros m e [= <-] Hm. congruence.
    + split; [lia|]. split; [intros p [<-|[]]; reflexivity|]. split.
      * intros t. split; [discriminate|].
        intros (m & [= <-] & Hm). congruence.
      * intros m e [= <-] Hm. congruence.
  - simpl. split; [lia|]. split; [tauto|]. split.
    + intros t. split; [discriminate | intros (m & Hm & _); discriminate].
    + intros m e Hm. discriminate.
Qed.

Lemma translate_calls_api_once_witness :
  translate_text_gemini (Some (fun _ => Raises (ApiError "quota exceeded")))
    "Buy milk" "Spanish"
  = (None,
     [GenerateContent "Translate the following text into Spanish: Buy milk";
      StError "Gemini translation error: quota exceeded"]).
Proof.
  apply (proj2 (proj2 (proj2 (translate_calls_api_once
    (Some (fun _ => Raises (ApiError "quota exceeded"))) "Buy milk" "Spanish")))
    (fun _ => Raises (ApiError "quota exceeded")) (ApiError "quota exceeded"));
    reflexivity.
Defined.

Lemma append_nil_r s : s +:+ "" = s.
Proof.
  induction s as [|a s IH]; [reflexivity|].
  change (String a (s +:+ "") = String a s). now f_equal.
Qed.

Lemma append_assoc s1 s2 s3 : (s1 +:+ s2) +:+ s3 = s1 +:+ (s2 +:+ s3).
Proof.
  induction s1 as [|a s1 IH]; [reflexivity|].
  change (String a ((s1 +:+ s2) +:+ s3) = String a (s1 +:+ (s2 +:+ s3))).
  now f_equal.
Qed.

Lemma annotate_suffix label v text :
  exists suffix, annotate label v text = text +:+ suffix.
Proof.
  unfold annotate. destruct v as [s|].
  - destruct (truthy s); [eexists; reflexivity|].
    exists "". now rewrite append_nil_r.
  - exists "". now rewrite append_nil_r.
Qed.

(** X12. The text sent for translation begins with the title of the item;
    it is the title alone when the item has no due date and its description
    and priority are absent or empty.  An empty description, as the add form
    stores it for an empty text area, adds nothing. *)
Theorem text_to_translate_starts_with_title todo :
  (exists suffix, text_to_translate todo = title todo +:+ suffix) /\
  (truthy_opt (description todo) = false ->
   truthy_opt (priority todo) = false ->
   due_date todo = None ->
   text_to_translate todo = title todo).
Proof.
  split.
  - unfold text_to_translate.
    destruct (annotate_suffix "Description" (description todo) (title todo))
      as [s1 ->].
    destruct (annotate_suffix "Priority" (priority todo) (title todo +:+ s1))
      as [s2 ->].
    destruct (annotate_suffix "Due Date" (str_date <$> due_date todo)
                ((title todo +:+ s1) +:+ s2)) as [s3 ->].
    exists (s1 +:+ s2 +:+ s3). now rewrite !append_assoc.
  - intros Hd Hp Hdd. unfold text_to_translate. rewrite Hdd. simpl.
    unfold annotate.
    destruct (description todo) as [d|]; destruct (priority todo) as [p|];
      simpl in Hd, Hp; rewrite ?Hd, ?Hp; reflexivity.
Qed.

Lemma text_to_translate_starts_with_title_witness :
  text_to_translate (mk_TodoItem 1 "Buy milk" (Some "") false None None)
  = "Buy milk".
Proof.
  apply (proj2 (text_to_translate_starts_with_title
                  (mk_TodoItem 1 "Buy milk" (Some "") false None None)));
    reflexivity.
Defined.

(** X13. The "Delete" button touches the cache of the deleted item only:
    every cache lookup for another id gives what it gave before.  After it,
    neither the pending nor the completed list holds an item with the deleted
    id, and the button asks for a rerun. *)
Theorem delete_button_keeps_other_entries w todo :
  (forall j l, j <> id todo ->
               cached_translation (translations (fst (delete_button w todo))) j l
               = cached_translation (translations w) j l) /\
  (forall row,
      In row (incomplete_todos (db (fst (delete_button w todo)))) \/
      In row (completed_todos (db (fst (delete_button w todo)))) ->
      id row <> id todo) /\
  snd (delete_button w todo) = [StRerun].
Proof.
  unfold delete_button.
  assert (Ht := delete_todo_db_table (db w) (id todo)).
  destruct (delete_todo_db (db w) (id todo)) as [db' r]. cbn [fst] in Ht.
  subst db'. cbn [fst snd db translations]. split; [|split].
  - intros j l Hj. rewrite cached_translation_evict. now rewrite decide_False.
  - unfold incomplete_todos, completed_todos. intros row [H|H];
      apply filter_In in H; destruct H as [H _];
      apply sql_delete_In in H; tauto.
  - reflexivity.
Qed.

Lemma delete_button_keeps_other_entries_witness :
  cached_translation
    (translations (fst (delete_button
       (mk_world [sample_row] {[ 2 := {[ "Spanish" := "Comprar huevos" ]} ]})
       sample_row))) 2 "Spanish"
  = Some "Comprar huevos".
Proof.
  rewrite (proj1 (delete_button_keeps_other_entries
    (mk_world [sample_row] {[ 2 := {[ "Spanish" := "Comprar huevos" ]} ]})
    sample_row) 2 "Spanish"); [|discriminate].
  reflexivity.
Defined.

(** X14. A submission of the add form with a non-empty title and one of the
    four offered priorities always succeeds: one row is appended, not
    completed, with the submitted title, the text of the description area
    (also when empty) and the due date; the choice "None" is stored as no
    priority.  The new item is the last of the pending list, the completed
    list and the cache are unchanged, and a rerun is asked. *)
Theorem add_form_appends_pending_item w new_title new_description new_priority
    new_due_date :
  new_title <> "" ->
  In new_priority ["None"; "Low"; "Medium"; "High"] ->
  let r := add_todo_form w true new_title new_description new_priority
             new_due_date in
  let item := mk_TodoItem (next_rowid (db w)) new_title (Some new_description)
                false
                (if String.eqb new_priority "None" then None else Some new_priority)
                new_due_date in
  r = (mk_world (db w ++ [item]) (translations w),
       [StSuccess "To-Do item added successfully!"; StRerun]) /\
  (new_priority = "None" -> priority item = None) /\
  (new_priority <> "None" -> priority item = Some new_priority) /\
  incomplete_todos (db (fst r)) = incomplete_todos (db w) ++ [item] /\
  completed_todos (db (fst r)) = completed_todos (db w).
Proof.
  intros Ht Hp r item.
  assert (Hok : priority_ok
            (if String.eqb new_priority "None" then None else Some new_priority)
          = true).
  { simpl in Hp. destruct Hp as [<-|[<-|[<-|[<-|[]]]]]; reflexivity. }
  assert (Hr : r = (mk_world (db w ++ [item]) (translations w),
                    [StSuccess "To-Do item added successfully!"; StRerun])).
  { subst r. unfold add_todo_form.
    destruct new_title as [|a rest]; [contradiction|]. cbn [truthy].
    rewrite create_todo_db_valid by exact Hok. reflexivity. }
  split; [exact Hr|]. split; [|split; [|split]].
  - intros ->. reflexivity.
  - intros Hne. unfold item. cbn [priority].
    destruct (String.eqb_spec new_priority "None"); [contradiction | reflexivity].
  - rewrite Hr. cbn [fst db]. unfold incomplete_todos.
    now rewrite List.filter_app.
  - rewrite Hr. cbn [fst db]. unfold completed_todos.
    rewrite List.filter_app. simpl. apply app_nil_r.
Qed.

Lemma add_form_appends_pending_item_witness :
  add_todo_form (mk_world [sample_row] ∅) true "Buy eggs" "" "None" None
  = (mk_world ([sample_row] ++ [mk_TodoItem 2 "Buy eggs" (Some "") false None None]) ∅,
     [StSuccess "To-Do item added successfully!"; StRerun]).
Proof.
  apply (add_form_appends_pending_item (mk_world [sample_row] ∅)
           "Buy eggs" "" "None" None).
  - discriminate.
  - simpl. now left.
Defined.

(** X15. The configuration yields a model exactly when the key is set, not
    empty, and the client could be built with it; in every other case it
    reports one error and leaves [gemini_model] at [None].  The configuration
    sends no request to the API. *)
Theorem configure_gemini_model key connect :
  (forall m, fst (configure_gemini key connect) = Some m <->
             exists k, key = Some k /\ k <> "" /\ connect k = Returns m) /\
  (fst (configure_gemini key connect) = None ->
   exists msg, snd (configure_gemini key connect) = [StError msg]) /\
  api_calls (snd (configure_gemini key connect)) = [].
Proof.
  unfold configure_gemini. destruct key as [k|].
  - destruct k as [|a rest]; cbn [truthy].
    + split; [|split].
      * intros m. split; [discriminate|].
        intros (k & [= <-] & Hne & _). contradiction.
      * intros _. eauto.
      * reflexivity.
    + destruct (connect (String a rest)) as [m0|e] eqn:Ec; cbn [fst snd].
      * split; [|split].
        -- intros m. split.
           ++ intros [= <-]. exists (String a rest).
              split; [reflexivity|]. split; [discriminate | exact Ec].
           ++ intros (k & [= <-] & _ & Hk). congruence.
        -- discriminate.
        -- reflexivity.
      * split; [|split].
        -- intros m. split; [discriminate|].
           intros (k & [= <-] & _ & Hk). congruence.
        -- intros _. eauto.
        -- reflexivity.
  - split; [|split].
    + intros m. split; [discriminate | intros (k & Hk & _); discriminate].
    + intros _. eauto.
    + reflexivity.
Qed.

Lemma configure_gemini_model_witness :
  exists msg,
    snd (configure_gemini (Some "secret")
           (fun _ => Raises (ApiError "invalid key"))) = [StError msg].
Proof.
  apply (proj1 (proj2 (configure_gemini_model (Some "secret")
                         (fun _ => Raises (ApiError "invalid key"))))).
  reflexivity.
Defined.

(** * Properties of the sidebar and of the rendered list *)

(** X16. Every language the select box offers is a key of [LANGUAGES] and is
    mapped to itself, so the target language handed to the translation is
    the name shown to the user; the ten names are pairwise distinct and the
    selection before any choice is English. *)
Theorem target_language_is_selected_name choice :
  (choice < 10)%nat ->
  (exists name,
      selected_language_name choice = Some name /\
      target_language_of choice = Some name) /\
  NoDup (List.map fst LANGUAGES) /\
  selected_language_name 0 = Some "English".
Proof.
  intros Hlt. split; [|split].
  - do 10 (destruct choice as [|choice];
           [eexists; split; reflexivity|]).
    lia.
  - apply (bool_decide_unpack _). vm_compute. exact I.
  - reflexivity.
Qed.

Lemma target_language_is_selected_name_witness :
  exists name,
    selected_language_name 7 = Some name /\ target_language_of 7 = Some name.
Proof.
  apply (proj1 (target_language_is_selected_name 7 ltac:(lia))).
Defined.

Lemma str_int_inj z z' : str_int z = str_int z' -> z = z'.
Proof.
  unfold str_int. intros H. apply to_int_inj.
  assert (E : Some (Z.to_int z) = Some (Z.to_int z'))
    by (rewrite <- !NilEmpty.isi; now rewrite H).
  now injection E.
Qed.

Lemma widget_key_inj k i k' i' :
  widget_key k i = widget_key k' i' -> k = k' /\ i = i'.
Proof.
  unfold widget_key. intros H.
  destruct k, k'; cbn [key_prefix String.append] in H;
    try discriminate H;
    (split; [reflexivity|]); apply str_int_inj;
    repeat (injection H as H); exact H.
Qed.

Section RenderFacts.

Variable tr : gmap Z (gmap string string).
Variable selected_name : string.
Variable target_language : string.

Lemma button_keys_app l1 l2 :
  button_keys (l1 ++ l2) = button_keys l1 ++ button_keys l2.
Proof. apply omap_app. Qed.

Lemma button_keys_field_line html line value :
  button_keys (field_line html line value) = [].
Proof.
  unfold field_line. destruct value as [v|]; [|reflexivity].
  now destruct (truthy v).
Qed.

Lemma button_keys_pending_item n todo :
  button_keys (pending_item tr selected_name target_language n todo)
  = [widget_key Complete (id todo); widget_key Translate (id todo);
     widget_key DeleteIncomplete (id todo)].
Proof.
  unfold pending_item. rewrite !button_keys_app, !button_keys_field_line.
  now destruct (cached_translation tr (id todo) target_language).
Qed.

Lemma button_keys_completed_item n todo :
  button_keys (completed_item tr selected_name target_language n todo)
  = [widget_key DeleteCompleted (id todo)].
Proof.
  unfold completed_item. rewrite !button_keys_app, !button_keys_field_line.
  now destruct (cached_translation tr (id todo) target_language).
Qed.

Lemma button_keys_pending_loop l : forall n,
  button_keys (pending_loop tr selected_name target_language n l)
  = flat_map (fun todo => [widget_key Complete (id todo);
                           widget_key Translate (id todo);
                           widget_key DeleteIncomplete (id todo)]) l.
Proof.
  induction l as [|todo l IH]; intros n; [reflexivity|].
  cbn [pending_loop flat_map].
  now rewrite button_keys_app, button_keys_pending_item, IH.
Qed.

Lemma button_keys_completed_loop l : forall n,
  button_keys (completed_loop tr selected_name target_language n l)
  = List.map (fun todo => widget_key DeleteCompleted (id todo)) l.
Proof.
  induction l as [|todo l IH]; intros n; [reflexivity|].
  cbn [completed_loop List.map].
  now rewrite button_keys_app, button_keys_completed_item, IH.
Qed.

Lemma button_keys_render_todos todos :
  button_keys (render_todos tr selected_name target_language todos)
  = flat_map (fun todo => [widget_key Complete (id todo);
                           widget_key Translate (id todo);
                           widget_key DeleteIncomplete (id todo)])
      (incomplete_todos todos)
    ++ List.map (fun todo => widget_key DeleteCompleted (id todo))
         (completed_todos todos).
Proof.
  unfold render_todos. destruct todos as [|t todos]; [reflexivity|].
  rewrite button_keys_app.
  f_equal.
  - destruct (incomplete_todos (t :: todos)) as [|a l] eqn:E; [reflexivity|].
    change (button_keys (Subheader "Pending Tasks" ::
              pending_loop tr selected_name target_language 1 (a :: l)))
      with (button_keys (pending_loop tr selected_name target_language 1 (a :: l))).
    apply button_keys_pending_loop.
  - destruct (completed_todos (t :: todos)) as [|a l] eqn:E; [reflexivity|].
    change (button_keys (Subheader "Completed Tasks" ::
              completed_loop tr selected_name target_language 1 (a :: l)))
      with (button_keys (completed_loop tr selected_name target_language 1 (a :: l))).
    apply button_keys_completed_loop.
Qed.

Lemma In_button_keys todos k i :
  In (widget_key k i)
     (button_keys (render_todos tr selected_name target_language todos)) <->
  exists todo,
    In todo todos /\ id todo = i /\
    completed todo = match k with DeleteCompleted => true | _ => false end.
Proof.
  rewrite button_keys_render_todos, in_app_iff, in_flat_map, in_map_iff.
  unfold incomplete_todos, completed_todos. split.
  - intros [(todo & Hin & Hk)|(todo & Hk & Hin)].
    + apply filter_In in Hin. destruct Hin as [Hin Hc].
      apply negb_true_iff in Hc. exists todo.
      simpl in Hk. destruct Hk as [Hk|[Hk|[Hk|[]]]];
        apply widget_key_inj in Hk; destruct Hk as [<- <-]; auto.
    + apply filter_In in Hin. destruct Hin as [Hin Hc]. exists todo.
      apply widget_key_inj in Hk. destruct Hk as [<- <-]. auto.
  - intros (todo & Hin & <- & Hc).
    destruct k.
    + left. exists todo. split; [|simpl; auto].
      apply filter_In. split; [exact Hin | now rewrite Hc].
    + left. exists todo. split; [|simpl; auto].
      apply filter_In. split; [exact Hin | now rewrite Hc].
    + left. exists todo. split; [|simpl; auto].
      apply filter_In. split; [exact Hin | now rewrite Hc].
    + right. exists todo. split; [reflexivity|].
      apply filter_In. now split.
Qed.

End RenderFacts.

Lemma NoDup_map_id_filter (f : TodoItem -> bool) l :
  NoDup (List.map id l) -> NoDup (List.map id (List.filter f l)).
Proof.
  induction l as [|a l IH]; simpl; intros Hnd; [constructor|].
  apply NoDup_cons in Hnd. destruct Hnd as [Hnotin Hnd].
  rewrite list_elem_of_In in Hnotin.
  destruct (f a); simpl; [|now apply IH].
  apply NoDup_cons. split; [|now apply IH].
  rewrite list_elem_of_In.
  intros Hin. apply Hnotin. apply in_map_iff in Hin.
  destruct Hin as (r & Hr & Hrin). apply filter_In in Hrin.
  rewrite <- Hr. apply in_map. tauto.
Qed.

Lemma In_pending_keys key l :
  In key (flat_map (fun todo => [widget_key Complete (id todo);
                                 widget_key Translate (id todo);
                                 widget_key DeleteIncomplete (id todo)]) l) ->
  exists todo k,
    In todo l /\ key = widget_key k (id todo) /\ k <> DeleteCompleted.
Proof.
  rewrite in_flat_map. intros (todo & Hin & Hk). simpl in Hk.
  destruct Hk as [<-|[<-|[<-|[]]]]; eexists todo, _;
    (split; [exact Hin|]); (split; [reflexivity | discriminate]).
Qed.

Lemma NoDup_pending_keys l :
  NoDup (List.map id l) ->
  NoDup (flat_map (fun todo => [widget_key Complete (id todo);
                                widget_key Translate (id todo);
                                widget_key DeleteIncomplete (id todo)]) l).
Proof.
  induction l as [|a l IH]; simpl; intros Hnd; [constructor|].
  apply NoDup_cons in Hnd. destruct Hnd as [Hnotin Hnd].
  rewrite list_elem_of_In in Hnotin.
  assert (Hrest : forall k,
    ~ In (widget_key k (id a))
         (flat_map (fun todo => [widget_key Complete (id todo);
                                 widget_key Translate (id todo);
                                 widget_key DeleteIncomplete (id todo)]) l)).
  { intros k Hin. apply In_pending_keys in Hin.
    destruct Hin as (todo & k' & Hin & Hk & _).
    apply widget_key_inj in Hk. destruct Hk as [_ Hid].
    apply Hnotin. rewrite Hid. now apply in_map. }
  repeat (apply NoDup_cons; split);
    [ | | | now apply IH ];
    rewrite list_elem_of_In; simpl; intros H;
    repeat (destruct H as [H|H];
            [apply widget_key_inj in H; destruct H as [H _]; discriminate H|]);
    exact (Hrest _ H).
Qed.

Lemma NoDup_completed_keys l :
  NoDup (List.map id l) ->
  NoDup (List.map (fun todo => widget_key DeleteCompleted (id todo)) l).
Proof.
  induction l as [|a l IH]; simpl; intros Hnd; [constructor|].
  apply NoDup_cons in Hnd. destruct Hnd as [Hnotin Hnd].
  rewrite list_elem_of_In in Hnotin.
  apply NoDup_cons. split; [|now apply IH].
  rewrite list_elem_of_In.
  intros Hin. apply in_map_iff in Hin. destruct Hin as (todo & Hk & Hin).
  apply widget_key_inj in Hk. destruct Hk as [_ Hid].
  apply Hnotin. rewrite <- Hid. now apply in_map.
Qed.

(** X17. When the items of the list have pairwise distinct ids, as the rows
    of the table have, no two buttons of the rendered list share a widget
    key. *)
Theorem button_keys_distinct tr selected_name target_language todos :
  NoDup (List.map id todos) ->
  NoDup (button_keys (render_todos tr selected_name target_language todos)).
Proof.
  intros Hnd. rewrite button_keys_render_todos. apply NoDup_app.
  split; [|split].
  - apply NoDup_pending_keys. now apply NoDup_map_id_filter.
  - intros key Hp Hc. rewrite list_elem_of_In in Hp, Hc.
    apply In_pending_keys in Hp.
    destruct Hp as (todo & k & _ & -> & Hk).
    apply in_map_iff in Hc. destruct Hc as (todo' & Hc & _).
    apply widget_key_inj in Hc. destruct Hc as [Hc _]. congruence.
  - apply NoDup_completed_keys. now apply NoDup_map_id_filter.
Qed.

Lemma button_keys_distinct_witness :
  NoDup (button_keys (render_todos ∅ "Spanish" "Spanish"
    [sample_row; mk_TodoItem 2 "Buy eggs" None true None None])).
Proof.
  apply (button_keys_distinct ∅ "Spanish" "Spanish"
           [sample_row; mk_TodoItem 2 "Buy eggs" None true None None]).
  apply (bool_decide_unpack _). vm_compute. exact I.
Defined.

(** X18. The buttons follow the state of the item: "Mark Completed",
    "Translate" and the delete button of the pending section are on the
    screen for an id exactly when a pending item has that id, and the delete
    button of the completed section exactly when a completed item has it.  A
    completed item gets neither "Mark Completed" nor "Translate". *)
Theorem buttons_follow_completion tr selected_name target_language todos k i :
  In (widget_key k i)
     (button_keys (render_todos tr selected_name target_language todos)) <->
  exists todo,
    In todo todos /\ id todo = i /\
    completed todo = match k with DeleteCompleted => true | _ => false end.
Proof. apply In_button_keys. Qed.

Section RenderSections.

Variable tr : gmap Z (gmap string string).
Variable selected_name : string.
Variable target_language : string.

(** A projection of the screen that ignores what the items put on it. *)
Variable pick : element -> option string.
Hypothesis pick_markdown : forall body html, pick (Markdown body html) = None.
Hypothesis pick_button : forall label key, pick (Button label key) = None.
Hypothesis pick_divider : pick Divider = None.

Lemma omap_field_line html line value :
  omap pick (field_line html line value) = [].
Proof.
  unfold field_line. destruct value as [v|]; [|reflexivity].
  destruct (truthy v); [|reflexivity]. simpl. now rewrite pick_markdown.
Qed.

Lemma omap_pending_item n todo :
  omap pick (pending_item tr selected_name target_language n todo) = [].
Proof.
  unfold pending_item. rewrite !omap_app, !omap_field_line.
  destruct (cached_translation tr (id todo) target_language); simpl;
    now rewrite ?pick_markdown, ?pick_button, ?pick_divider.
Qed.

Lemma omap_completed_item n todo :
  omap pick (completed_item tr selected_name target_language n todo) = [].
Proof.
  unfold completed_item. rewrite !omap_app, !omap_field_line.
  destruct (cached_translation tr (id todo) target_language); simpl;
    now rewrite ?pick_markdown, ?pick_button, ?pick_divider.
Qed.

Lemma omap_pending_loop l : forall n,
  omap pick (pending_loop tr selected_name target_language n l) = [].
Proof.
  induction l as [|todo l IH]; intros n; [reflexivity|].
  cbn [pending_loop]. now rewrite omap_app, omap_pending_item, IH.
Qed.

Lemma omap_completed_loop l : forall n,
  omap pick (completed_loop tr selected_name target_language n l) = [].
Proof.
  induction l as [|todo l IH]; intros n; [reflexivity|].
  cbn [completed_loop]. now rewrite omap_app, omap_completed_item, IH.
Qed.

End RenderSections.

(** X19. The notice "No To-Do items yet!" is on the screen exactly when the
    list is empty; the header "Pending Tasks" exactly when some item is
    pending and "Completed Tasks" exactly when some item is completed, the
    pending section first; the screen has no other header or notice. *)
Theorem sections_follow_items tr selected_name target_language todos :
  infos (render_todos tr selected_name target_language todos)
  = match todos with
    | [] => ["No To-Do items yet! Add one above."]
    | _ :: _ => []
    end /\
  subheaders (render_todos tr selected_name target_language todos)
  = match incomplete_todos todos with
    | [] => []
    | _ :: _ => ["Pending Tasks"]
    end ++
    match completed_todos todos with
    | [] => []
    | _ :: _ => ["Completed Tasks"]
    end.
Proof.
  unfold render_todos. destruct todos as [|t todos]; [split; reflexivity|].
  unfold infos, subheaders. rewrite !omap_app. split.
  - destruct (incomplete_todos (t :: todos)) as [|a l];
      destruct (completed_todos (t :: todos)) as [|b m];
      cbn -[pending_loop completed_loop];
      rewrite ?omap_pending_loop, ?omap_completed_loop;
      reflexivity.
  - f_equal.
    + destruct (incomplete_todos (t :: todos)) as [|a l]; [reflexivity|].
      cbn -[pending_loop]. now rewrite omap_pending_loop.
    + destruct (completed_todos (t :: todos)) as [|b m]; [reflexivity|].
      cbn -[completed_loop]. now rewrite omap_completed_loop.
Qed.

Lemma In_pending_loop tr selected_name target_language l : forall n k todo,
  l !! k = Some todo ->
  forall el,
    In el (pending_item tr selected_name target_language (n + Z.of_nat k) todo) ->
    In el (pending_loop tr selected_name target_language n l).
Proof.
  induction l as [|a l IH]; intros n k todo Hk el Hel; [discriminate|].
  cbn [pending_loop]. apply in_app_iff. destruct k as [|k].
  - injection Hk as ->. left. now rewrite Z.add_0_r in Hel.
  - right. apply (IH (n + 1) k todo Hk).
    replace (n + 1 + Z.of_nat k) with (n + Z.of_nat (S k)) by lia. exact Hel.
Qed.

Lemma In_completed_loop tr selected_name target_language l : forall n k todo,
  l !! k = Some todo ->
  forall el,
    In el (completed_item tr selected_name target_language (n + Z.of_nat k) todo) ->
    In el (completed_loop tr selected_name target_language n l).
Proof.
  induction l as [|a l IH]; intros n k todo Hk el Hel; [discriminate|].
  cbn [completed_loop]. apply in_app_iff. destruct k as [|k].
  - injection Hk as ->. left. now rewrite Z.add_0_r in Hel.
  - right. apply (IH (n + 1) k todo Hk).
    replace (n + 1 + Z.of_nat k) with (n + Z.of_nat (S k)) by lia. exact Hel.
Qed.

Lemma In_render_pending tr selected_name target_language todos k todo el :
  incomplete_todos todos !! k = Some todo ->
  In el (pending_item tr selected_name target_language (1 + Z.of_nat k) todo) ->
  In el (render_todos tr selected_name target_language todos).
Proof.
  intros Hk Hel. unfold render_todos.
  destruct todos as [|t todos]; [discriminate|].
  apply in_app_iff. left.
  destruct (incomplete_todos (t :: todos)) as [|a l] eqn:E; [discriminate|].
  right. now apply (In_pending_loop _ _ _ _ 1 k todo).
Qed.

Lemma In_render_completed tr selected_name target_language todos k todo el :
  completed_todos todos !! k = Some todo ->
  In el (completed_item tr selected_name target_language (1 + Z.of_nat k) todo) ->
  In el (render_todos tr selected_name target_language todos).
Proof.
  intros Hk Hel. unfold render_todos.
  destruct todos as [|t todos]; [discriminate|].
  apply in_app_iff. right.
  destruct (completed_todos (t :: todos)) as [|a l] eqn:E; [discriminate|].
  right. now apply (In_completed_loop _ _ _ _ 1 k todo).
Qed.

(** X20. Each section numbers its items from 1 in the order of the list: the
    item at position k (from 0) of the pending list is shown with the number
    k + 1 before its title, and so is the item at position k of the
    completed list, struck through. *)
Theorem items_numbered_from_one tr selected_name target_language todos k todo :
  (incomplete_todos todos !! k = Some todo ->
   In (Markdown (str_int (1 + Z.of_nat k) +:+ ". **" +:+ title todo +:+ "**") false)
      (render_todos tr selected_name target_language todos)) /\
  (completed_todos todos !! k = Some todo ->
   In (Markdown ("<del>**" +:+ str_int (1 + Z.of_nat k) +:+ ". " +:+ title todo
                 +:+ "**</del>") true)
      (render_todos tr selected_name target_language todos)).
Proof.
  split; intros Hk.
  - apply (In_render_pending _ _ _ _ _ _ _ Hk). unfold pending_item.
    apply in_app_iff. left. now left.
  - apply (In_render_completed _ _ _ _ _ _ _ Hk). unfold completed_item.
    apply in_app_iff. left. now left.
Qed.

Lemma items_numbered_from_one_witness :
  In (Markdown "2. **Buy eggs**" false)
     (render_todos ∅ "Spanish" "Spanish"
        [sample_row; mk_TodoItem 2 "Buy eggs" None false None None]).
Proof.
  apply (proj1 (items_numbered_from_one ∅ "Spanish" "Spanish"
    [sample_row; mk_TodoItem 2 "Buy eggs" None false None None] 1
    (mk_TodoItem 2 "Buy eggs" None false None None))).
  reflexivity.
Defined.

(** X21. After a "Translate" on a pending item of the table for which the
    model answered with a non-empty text, the next rendering of the list, in
    the same language, shows the translated text under that item. *)
Theorem translation_shown_after_translate model selected_name target_language
    w todo text :
  model (translation_prompt (text_to_translate todo) target_language)
  = Returns text ->
  text <> "" ->
  In todo (get_all_todos_db (db w)) ->
  completed todo = false ->
  let w' := fst (translate_button (Some model) target_language w todo) in
  In (Markdown ("**Translated (" +:+ selected_name +:+ "):** *" +:+ text +:+ "*")
        false)
     (render_todos (translations w') selected_name target_language
        (get_all_todos_db (db w'))).
Proof.
  intros Hm Hne Hin Hc w'.
  assert (Hw : translations w'
               = cache_put (translations w) (id todo) target_language text
               /\ db w' = db w).
  { subst w'. unfold translate_button, translate_text_gemini. cbv zeta.
    rewrite Hm. destruct text as [|a rest]; [contradiction|].
    split; reflexivity. }
  destruct Hw as [Htr Hdb]. rewrite Htr, Hdb. unfold get_all_todos_db in *.
  assert (Hp : In todo (incomplete_todos (db w))).
  { apply filter_In. split; [exact Hin | now rewrite Hc]. }
  apply list_elem_of_In, list_elem_of_lookup_1 in Hp. destruct Hp as [k Hk].
  apply (In_render_pending _ _ _ _ _ _ _ Hk). unfold pending_item.
  rewrite cached_translation_put, decide_True by (split; reflexivity).
  rewrite !in_app_iff. do 4 right. left. now left.
Qed.

Lemma translation_shown_after_translate_witness :
  In (Markdown "**Translated (Spanish):** *Comprar leche*" false)
     (render_todos
        (translations (fst (translate_button
           (Some (fun _ => Returns "Comprar leche")) "Spanish"
           (mk_world [sample_row] ∅) sample_row)))
        "Spanish" "Spanish"
        (get_all_todos_db (db (fst (translate_button
           (Some (fun _ => Returns "Comprar leche")) "Spanish"
           (mk_world [sample_row] ∅) sample_row))))).
Proof.
  apply (translation_shown_after_translate (fun _ => Returns "Comprar leche")
           "Spanish" "Spanish" (mk_world [sample_row] ∅) sample_row
           "Comprar leche").
  - reflexivity.
  - discriminate.
  - simpl. now left.
  - reflexivity.
Defined.

Lemma delete_button_table w todo :
  db (fst (delete_button w todo)) = sql_delete (db w) (id todo).
Proof.
  unfold delete_button.
  assert (Ht := delete_todo_db_table (db w) (id todo)).
  destruct (delete_todo_db (db w) (id todo)) as [db' r]. exact Ht.
Qed.

(** X22. The "Delete" button on an item takes the buttons of that item, of
    every kind, off the screen and keeps the buttons of all other items: a
    button for an id is rendered for the new table exactly when it was
    rendered for the old one and the id is not the deleted one. *)
Theorem delete_button_removes_buttons tr selected_name target_language w todo k i :
  In (widget_key k i)
     (button_keys (render_todos tr selected_name target_language
        (get_all_todos_db (db (fst (delete_button w todo)))))) <->
  In (widget_key k i)
     (button_keys (render_todos tr selected_name target_language
        (get_all_todos_db (db w)))) /\
  i <> id todo.
Proof.
  rewrite !In_button_keys. unfold get_all_todos_db.
  rewrite delete_button_table. split.
  - intros (row & Hin & Hid & Hc). apply sql_delete_In in Hin.
    destruct Hin as [Hin Hne]. split; [|congruence].
    exists row. now repeat split.
  - intros [(row & Hin & Hid & Hc) Hne]. exists row.
    split; [|now split]. apply sql_delete_In. split; [exact Hin | congruence].
Qed.

(** X23. After "Mark Completed" on an item that is in the table, the
    rendering of the new table offers for its id the delete button of the
    completed section and none of "Mark Completed", "Translate" and the
    delete button of the pending section. *)
Theorem buttons_after_mark_completed tr selected_name target_language w todo k :
  In (id todo) (List.map id (db w)) ->
  (In (widget_key k (id todo))
      (button_keys (render_todos tr selected_name target_language
         (get_all_todos_db (db (fst (mark_completed w todo)))))) <->
   k = DeleteCompleted).
Proof.
  intros Hin. destruct (session_get_is_Some _ _ Hin) as [row Hrow].
  destruct (session_get_Some _ _ _ Hrow) as [Hrin Hid].
  rewrite In_button_keys, (mark_completed_present _ _ _ Hrow).
  cbn [fst db]. unfold get_all_todos_db.
  set (done := mk_TodoItem (id row) _ _ true _ _).
  split.
  - intros (r & Hr & Hrid & Hc). unfold sql_update in Hr.
    apply in_map_iff in Hr. destruct Hr as (r0 & Hr0 & _).
    destruct (Z.eqb_spec (id r0) (id done)) as [E|E].
    + subst r. cbn [completed done] in Hc. destruct k; congruence.
    + subst r0. exfalso. apply E. unfold done; cbn [id]. congruence.
  - intros ->. exists done. split; [|split; [|reflexivity]].
    + unfold sql_update. apply in_map_iff. exists row.
      split; [|exact Hrin]. unfold done; cbn [id]. now rewrite Z.eqb_refl.
    + unfold done; cbn [id]. exact Hid.
Qed.

Lemma buttons_after_mark_completed_witness :
  ~ In (widget_key Complete 1)
       (button_keys (render_todos ∅ "Spanish" "Spanish"
          (get_all_todos_db
             (db (fst (mark_completed (mk_world [sample_row] ∅) sample_row)))))).
Proof.
  intros H.
  apply (buttons_after_mark_completed ∅ "Spanish" "Spanish"
           (mk_world [sample_row] ∅) sample_row Complete) in H.
  - discriminate H.
  - simpl. now left.
Defined.

Lemma digit_inj a b : digit a = digit b -> (a mod 10 = b mod 10)%nat.
Proof.
  unfold digit. intros H. apply (f_equal nat_of_ascii) in H.
  assert (Ha : (a mod 10 < 10)%nat) by (apply Nat.mod_upper_bound; lia).
  assert (Hb : (b mod 10 < 10)%nat) by (apply Nat.mod_upper_bound; lia).
  rewrite !nat_ascii_embedding in H by lia. lia.
Qed.

Lemma four_digits y y' :
  Z.of_nat y < 10000 -> Z.of_nat y' < 10000 ->
  ((y / 1000) mod 10 = (y' / 1000) mod 10)%nat ->
  ((y / 100) mod 10 = (y' / 100) mod 10)%nat ->
  ((y / 10) mod 10 = (y' / 10) mod 10)%nat ->
  (y mod 10 = y' mod 10)%nat ->
  y = y'.
Proof.
  intros Hy Hy' H3 H2 H1 H0.
  pose proof (Nat.div_mod_eq y 10). pose proof (Nat.div_mod_eq y' 10).
  pose proof (Nat.div_mod_eq (y / 10) 10).
  pose proof (Nat.div_mod_eq (y' / 10) 10).
  pose proof (Nat.div_mod_eq (y / 100) 10).
  pose proof (Nat.div_mod_eq (y' / 100) 10).
  assert (E1 : (y / 10 / 10 = y / 100)%nat) by (now rewrite Nat.Div0.div_div).
  assert (E1' : (y' / 10 / 10 = y' / 100)%nat) by (now rewrite Nat.Div0.div_div).
  assert (E2 : (y / 100 / 10 = y / 1000)%nat) by (now rewrite Nat.Div0.div_div).
  assert (E2' : (y' / 100 / 10 = y' / 1000)%nat) by (now rewrite Nat.Div0.div_div).
  assert (L : (y / 1000 < 10)%nat) by (apply Nat.Div0.div_lt_upper_bound; lia).
  assert (L' : (y' / 1000 < 10)%nat) by (apply Nat.Div0.div_lt_upper_bound; lia).
  rewrite (Nat.mod_small _ _ L), (Nat.mod_small _ _ L') in H3.
  lia.
Qed.

Lemma two_digits m m' :
  (m < 100)%nat -> (m' < 100)%nat ->
  ((m / 10) mod 10 = (m' / 10) mod 10)%nat ->
  (m mod 10 = m' mod 10)%nat ->
  m = m'.
Proof.
  intros Hm Hm' H1 H0.
  pose proof (Nat.div_mod_eq m 10). pose proof (Nat.div_mod_eq m' 10).
  assert (L : (m / 10 < 10)%nat) by (apply Nat.Div0.div_lt_upper_bound; lia).
  assert (L' : (m' / 10 < 10)%nat) by (apply Nat.Div0.div_lt_upper_bound; lia).
  rewrite (Nat.mod_small _ _ L), (Nat.mod_small _ _ L') in H1.
  lia.
Qed.

(** X24. The text of a date is ten characters, year, month and day separated
    by "-"; two dates in the range of [datetime.date] (year below 10000,
    month and day below 100) with the same text are the same date. *)
Theorem str_date_injective d d' :
  Z.of_nat (year d) < 10000 -> (month d < 100)%nat -> (day d < 100)%nat ->
  Z.of_nat (year d') < 10000 -> (month d' < 100)%nat -> (day d' < 100)%nat ->
  str_date d = str_date d' ->
  d = d' /\ String.length (str_date d) = 10%nat /\
  String.get 4 (str_date d) = Some "-"%char /\
  String.get 7 (str_date d) = Some "-"%char.
Proof.
  intros Hy Hm Hd Hy' Hm' Hd' H. split; [|repeat split].
  unfold str_date in H. destruct d as [y m dd], d' as [y' m' dd'].
  cbn [year month day] in *.
  injection H as H1 H2 H3 H4 H5 H6 H7 H8.
  apply digit_inj in H1, H2, H3, H4, H5, H6, H7, H8.
  f_equal.
  - now apply four_digits.
  - now apply two_digits.
  - now apply two_digits.
Qed.

Lemma str_date_injective_witness :
  String.length (str_date (mk_date 2025 3 7)) = 10%nat.
Proof.
  apply (str_date_injective (mk_date 2025 3 7) (mk_date 2025 3 7));
    simpl; try lia; reflexivity.
Defined.
